(** * WebTTY: the bridge between a PTY master connection and a PTY slave

    A shallow embedding of [webtty/webtty.go] and of the parts of Go's
    standard library it calls ([encoding/base64]), followed by the
    properties of the bridge: the resize and input handlers, the
    handshake, the text-safe framing of slave output and the audit sink.

    Conventions.
    - A Go [[]byte] is a [list byte]; a Go [int] is a [Z] (64-bit, the
      wrap-around is written out where the code computes with it).
    - The two connections are interfaces in the source.  Their calls are
      recorded, in order, in a trace of [Event]s; what a call returns is
      given by the [Conns] the handlers are run against.
    - A Go [error] is a value of the type [error]; [None] is [nil]. *)

From Stdlib Require Import String Ascii Init.Byte Strings.Byte.
From Stdlib Require Import DecimalString ZArith List Lia Bool.
From Stdlib Require DecimalPos DecimalZ.
Import ListNotations.
Open Scope Z_scope.

(** ** Bytes *)

Definition byte_to_Z (b : byte) : Z := Z.of_N (Byte.to_N b).

(** Go's conversion [byte(v)] of an unsigned value keeps the low 8 bits. *)
Definition byte_of_Z (z : Z) : byte :=
  match Byte.of_N (Z.to_N (z mod 256)) with
  | Some b => b
  | None => x00
  end.

Definition bytes (s : string) : list byte := list_byte_of_string s.

(** Go's [len], as an [int]. *)
Definition len {A : Type} (l : list A) : Z := Z.of_nat (length l).

(** ** Errors *)

Inductive error : Type :=
| ErrorString (msg : string)              (* errors.New *)
| ErrUnknownMessageType (tag : byte)      (* errors.Errorf("unknown message type `%c`", tag) *)
| Wrapf (err : error) (msg : string)      (* errors.Wrapf(err, msg) *)
| CorruptInputError (pos : Z)             (* base64.CorruptInputError *)
| ConnError (msg : string)                (* an error returned by a connection *)
| UnmarshalError (msg : string).          (* an error returned by json.Unmarshal *)

(** ** encoding/base64, [StdEncoding]

    The standard alphabet of RFC 4648 with '=' padding, not strict.
    [Encode] and [Decode] follow [Encoding.Encode] and
    [Encoding.Decode]/[decodeQuantum] of the Go standard library; the
    8-bytes-at-a-time fast path of [Decode], which computes the same
    result, is not modelled. *)
Module base64.

Definition encodeStd : list byte :=
  bytes "ABCDEFGHIJKLMNOPQRSTUVWXYZabcdefghijklmnopqrstuvwxyz0123456789+/".

Definition padChar : byte := "="%byte.

(** [enc.encode[i]] *)
Definition encode (i : Z) : byte := nth (Z.to_nat i) encodeStd x00.

Fixpoint index_of (c : byte) (l : list byte) (i : Z) : option Z :=
  match l with
  | [] => None
  | x :: l' => if Byte.eqb x c then Some i else index_of c l' (i + 1)
  end.

(** [enc.decodeMap[c]]: the index of [c] in the alphabet, 0xff for a
    byte outside of it. *)
Definition decodeMap (c : byte) : Z :=
  match index_of c encodeStd 0 with
  | Some i => i
  | None => 255
  end.

(** [enc.encode[val>>k&0x3F]] *)
Definition sextet (val k : Z) : byte :=
  encode (Z.land (Z.shiftr val k) 63).

Fixpoint Encode (src : list byte) : list byte :=
  match src with
  | [] => []
  | b0 :: b1 :: b2 :: rest =>
      let val := Z.lor (Z.lor (Z.shiftl (byte_to_Z b0) 16)
                              (Z.shiftl (byte_to_Z b1) 8))
                       (byte_to_Z b2) in
      sextet val 18 :: sextet val 12 :: sextet val 6 :: sextet val 0
        :: Encode rest
  | [b0; b1] =>
      let val := Z.lor (Z.shiftl (byte_to_Z b0) 16)
                       (Z.shiftl (byte_to_Z b1) 8) in
      [sextet val 18; sextet val 12; sextet val 6; padChar]
  | [b0] =>
      let val := Z.shiftl (byte_to_Z b0) 16 in
      [sextet val 18; sextet val 12; padChar; padChar]
  end.

(** [EncodeToString]; the string is turned back into bytes by the
    caller, so it is kept as bytes. *)
Definition EncodeToString (src : list byte) : list byte := Encode src.

Definition is_newline (c : byte) : bool :=
  Byte.eqb c "010"%byte || Byte.eqb c "013"%byte.

(** [for si < len(src) && (src[si] == '\n' || src[si] == '\r') { si++ }] *)
Fixpoint skipNewlines (src : list byte) (si : Z) : list byte * Z :=
  match src with
  | [] => ([], si)
  | c :: rest =>
      if is_newline c then skipNewlines rest (si + 1) else (src, si)
  end.

(** The last part of [decodeQuantum]: the [dlen] sextets read so far
    (missing ones are zero), as [dlen - 1] bytes. *)
Definition quantumBytes (dbuf : list Z) : list byte :=
  let d := fun i => nth i dbuf 0 in
  let val := Z.lor (Z.lor (Z.lor (Z.shiftl (d 0%nat) 18)
                                 (Z.shiftl (d 1%nat) 12))
                          (Z.shiftl (d 2%nat) 6))
                   (d 3%nat) in
  firstn (length dbuf - 1)
    [byte_of_Z (Z.shiftr val 16); byte_of_Z (Z.shiftr val 8);
     byte_of_Z (Z.shiftr val 0)].

(** [decodeQuantum] from the point where a padding character has been
    read at position [si] with [dbuf] already filled: the bytes of
    the last quantum and the error, if any. *)
Definition decodePadding (dbuf : list Z) (rest : list byte) (si : Z)
  : list byte * option error :=
  let finish (rest : list byte) (si : Z) :=
    (* skip over newlines; anything left is trailing garbage *)
    match skipNewlines rest si with
    | ([], _) => (quantumBytes dbuf, None)
    | (_ :: _, si') => (quantumBytes dbuf, Some (CorruptInputError si'))
    end in
  match length dbuf with
  | 0%nat | 1%nat =>
      (* incorrect padding *)
      ([], Some (CorruptInputError si))
  | 2%nat =>
      (* "==" is expected, the first "=" is already consumed *)
      match skipNewlines rest (si + 1) with
      | ([], si') =>
          (* not enough padding *)
          ([], Some (CorruptInputError si'))
      | (c :: rest', si') =>
          if Byte.eqb c padChar then finish rest' (si' + 1)
          else ([], Some (CorruptInputError (si' - 1)))
      end
  | _ => finish rest (si + 1)
  end.

(** The loop of [Decode] over [decodeQuantum], one input byte at a
    time: [si] is the position of the head of [src], [dbuf] the
    sextets of the quantum being read, [out] the bytes written. *)
Fixpoint decodeLoop (src : list byte) (si : Z) (dbuf : list Z)
         (out : list byte) : list byte * option error :=
  match src with
  | [] =>
      match dbuf with
      | [] => (out, None)
      | _ => (out, Some (CorruptInputError (si - len dbuf)))
      end
  | c :: rest =>
      let o := decodeMap c in
      if negb (o =? 255) then
        let dbuf' := dbuf ++ [o] in
        if (length dbuf' =? 4)%nat
        then decodeLoop rest (si + 1) [] (out ++ quantumBytes dbuf')
        else decodeLoop rest (si + 1) dbuf' out
      else if is_newline c then decodeLoop rest (si + 1) dbuf out
      else if negb (Byte.eqb c padChar)
      then (out, Some (CorruptInputError si))
      else
        let '(last, err) := decodePadding dbuf rest si in
        (out ++ last, err)
  end.

(** The decoded bytes and the error of [Decode], without the
    destination buffer. *)
Definition DecodeString (src : list byte) : list byte * option error :=
  decodeLoop src 0 [] [].

End base64.

(** ** The [Decoder] interface

    [Decode(dst, src []byte) (int, error)].  A decoder writes into the
    buffer it is given: the result is the buffer after the call, the
    count and the error, or a run-time panic when it writes past the
    end of [dst]. *)

Inductive DecodeResult : Type :=
| DecodePanic
| DecodeRet (dst : list byte) (n : Z) (err : option error).

Record Decoder : Type := { Decode : list byte -> list byte -> DecodeResult }.

(** Go's [copy(dst, src)]: the first [min(len(dst), len(src))] bytes of
    [dst] are replaced. *)
Definition copy (dst src : list byte) : list byte :=
  firstn (length dst) src ++ skipn (length src) dst.

(** Modelled from the spec: the identity codec of [webtty/codecs.go],
    which is not among the sources: "The identity codec copies bytes
    unchanged", and the operation returns the count written. *)
Definition NullCodec : Decoder :=
  {| Decode := fun dst src => DecodeRet (copy dst src) (len src) None |}.

(** [base64.StdEncoding] as a [Decoder]: the decoded bytes are written
    at the front of [dst]; writing past its end panics. *)
Definition base64_StdEncoding : Decoder :=
  {| Decode := fun dst src =>
       let '(out, err) := base64.DecodeString src in
       if (length out <=? length dst)%nat
       then DecodeRet (out ++ skipn (length out) dst) (len out) err
       else DecodePanic |}.

(** ** The bridge *)

(** What the bridge does to the outside world, in the order it does it:
    [masterConn.Write], [slave.Write], [slave.ResizeTerminal] and the
    entries given to the logger ([stream], the [username] field when it
    is set, the message). *)
Inductive Event : Type :=
| MasterWrite (data : list byte)
| SlaveWrite (data : list byte)
| SlaveResizeTerminal (columns rows : Z)
| LogInfo (stream : string) (username : option string) (msg : list byte).

(** The results of the two connections' [Write]: the error returned, if
    any, for a write of [data] after the calls of the trace. *)
Class Conns : Type := {
  masterConn_Write : list Event -> list byte -> option error;
  slave_Write : list Event -> list byte -> option error
}.

(** The message types of [webtty/message_types.go], one byte each.  The
    four types the master sends are the cases of one [switch], which Go
    compiles only when they are distinct constants. *)
Class MessageTypes : Type := {
  Input : byte;
  Ping : byte;
  ResizeTerminal : byte;
  SetEncoding : byte;
  Output : byte;
  Pong : byte;
  SetWindowTitle : byte;
  SetPreferences : byte;
  SetReconnect : byte;
  SetBufferSize : byte;
  master_types_distinct : NoDup [Input; Ping; SetEncoding; ResizeTerminal]
}.

(** The libraries the bridge calls and that are kept abstract:
    [json.Unmarshal] into an [argResizeTerminal] (two [float64] fields,
    [Columns] and [Rows]), the conversion [int(f)] of a [float64],
    [ansi.Strip] (its error is dropped by the caller) and
    [utils.RemoveNonGraphicChar]. *)
Class Libraries : Type := {
  float64 : Type;
  json_Unmarshal : list byte -> error + (float64 * float64);
  int_of_float64 : float64 -> Z;
  ansi_Strip : list byte -> list byte;
  RemoveNonGraphicChar : list byte -> list byte
}.

(** [json.Marshal] of an [int]: its decimal digits. *)
Definition json_Marshal_int (n : Z) : list byte :=
  bytes (DecimalString.NilZero.string_of_int (Z.to_int n)).

Fixpoint bytes_eqb (a b : list byte) : bool :=
  match a, b with
  | [], [] => true
  | x :: a', y :: b' => Byte.eqb x y && bytes_eqb a' b'
  | _, _ => false
  end.

(** [bytes.LastIndexByte(s, c)]: the index of the last [c] in [s], or
    -1. *)
Fixpoint LastIndexByte (s : list byte) (c : byte) : Z :=
  match s with
  | [] => -1
  | x :: s' =>
      let r := LastIndexByte s' c in
      if 0 <=? r then r + 1 else if Byte.eqb x c then 0 else -1
  end.

(** [s[:n]]: a run-time panic unless [0 <= n <= cap(s)]; the slices
    taken this way come from [make] with a length only, so the capacity
    is the length. *)
Definition slice_to (s : list byte) (n : Z) : option (list byte) :=
  if (0 <=? n) && (n <=? len s) then Some (firstn (Z.to_nat n) s) else None.

(** 64-bit two's complement wrap-around of Go's [int]. *)
Definition wrap64 (z : Z) : Z := (z + 2 ^ 63) mod 2 ^ 64 - 2 ^ 63.

Definition int_range (z : Z) : Prop := - 2 ^ 63 <= z < 2 ^ 63.

Record WebTTY : Type := {
  windowTitle : list byte;
  permitWrite : bool;
  columns : Z;
  rows : Z;
  reconnect : Z;                      (* in seconds *)
  masterPrefs : option (list byte);   (* [None] is the nil slice *)
  username : string;
  auditEnabled : bool;
  decoder : Decoder;
  bufferSize : Z;
  feBuffer : list byte;
  beBuffer : list byte
}.

Definition set_decoder (wt : WebTTY) (d : Decoder) : WebTTY :=
  {| windowTitle := windowTitle wt; permitWrite := permitWrite wt;
     columns := columns wt; rows := rows wt; reconnect := reconnect wt;
     masterPrefs := masterPrefs wt; username := username wt;
     auditEnabled := auditEnabled wt; decoder := d;
     bufferSize := bufferSize wt; feBuffer := feBuffer wt;
     beBuffer := beBuffer wt |}.

Definition set_feBuffer (wt : WebTTY) (b : list byte) : WebTTY :=
  {| windowTitle := windowTitle wt; permitWrite := permitWrite wt;
     columns := columns wt; rows := rows wt; reconnect := reconnect wt;
     masterPrefs := masterPrefs wt; username := username wt;
     auditEnabled := auditEnabled wt; decoder := decoder wt;
     bufferSize := bufferSize wt; feBuffer := b;
     beBuffer := beBuffer wt |}.

Definition set_beBuffer (wt : WebTTY) (b : list byte) : WebTTY :=
  {| windowTitle := windowTitle wt; permitWrite := permitWrite wt;
     columns := columns wt; rows := rows wt; reconnect := reconnect wt;
     masterPrefs := masterPrefs wt; username := username wt;
     auditEnabled := auditEnabled wt; decoder := decoder wt;
     bufferSize := bufferSize wt; feBuffer := feBuffer wt;
     beBuffer := b |}.

(** [New] before the options are applied. *)
Definition New : WebTTY :=
  {| windowTitle := []; permitWrite := false; columns := 0; rows := 0;
     reconnect := 0; masterPrefs := None; username := EmptyString;
     auditEnabled := false; decoder := NullCodec; bufferSize := 1024;
     feBuffer := []; beBuffer := [] |}.

(** How a handler ends: it returns an error or nil, or the run time
    panics on a slice out of range. *)
Inductive Ret : Type :=
| Return (err : option error)
| Panic.

(** A call that may fail, over the trace: the trace after it and its
    error.  [c !! msg] is [c] with its error wrapped, as in
    [if err != nil { return errors.Wrapf(err, msg) }]; [tr <- c ;; k]
    goes on with [k] when [c] returned nil and returns the error of [c]
    otherwise. *)
Definition wrapped (c : list Event * option error) (msg : string)
  : list Event * option error :=
  match c with
  | (tr, Some err) => (tr, Some (Wrapf err msg))
  | (tr, None) => (tr, None)
  end.

Definition andThen (c : list Event * option error)
           (k : list Event -> list Event * option error)
  : list Event * option error :=
  match c with
  | (tr, Some err) => (tr, Some err)
  | (tr, None) => k tr
  end.

Notation "c !! msg" := (wrapped c msg%string) (at level 55, left associativity).
Notation "tr <- c ;; k" := (andThen c (fun tr => k))
  (at level 61, c at next level, right associativity).

Definition ErrSlaveClosed : error := ErrorString "slave closed".
Definition ErrMasterClosed : error := ErrorString "master closed".

Section Bridge.

Context {MT : MessageTypes} {L : Libraries} {C : Conns}.

(** The mutex only orders the writes of the two loops; one handler
    at a time is modelled. *)
Definition masterWrite (tr : list Event) (data : list byte)
  : list Event * option error :=
  (tr ++ [MasterWrite data],
   match masterConn_Write tr data with
   | Some err => Some (Wrapf err "failed to write to master")
   | None => None
   end).

Definition sendInitializeMessage (wt : WebTTY) (tr : list Event)
  : list Event * option error :=
  tr <- masterWrite tr (SetWindowTitle :: windowTitle wt)
        !! "failed to send window title" ;;
  let bufSizeMsg := json_Marshal_int (bufferSize wt) in
  tr <- masterWrite tr (SetBufferSize :: bufSizeMsg)
        !! "failed to send buffer size" ;;
  tr <- (if reconnect wt >? 0 then
           let reconnect := json_Marshal_int (reconnect wt) in
           masterWrite tr (SetReconnect :: reconnect)
           !! "failed to set reconnect"
         else (tr, None)) ;;
  tr <- match masterPrefs wt with
        | Some prefs =>
            masterWrite tr (SetPreferences :: prefs)
            !! "failed to set preferences"
        | None => (tr, None)
        end ;;
  (tr, None).

Definition handleSlaveReadEvent (tr : list Event) (data : list byte)
  : list Event * option error :=
  let safeMessage := base64.EncodeToString data in
  masterWrite tr (Output :: safeMessage) !! "failed to send message to master".

Definition printAuditLogs (wt : WebTTY) (tr : list Event)
           (logs : list byte) (fe : bool) : list Event :=
  let stream := if negb fe then "backend"%string else "browser"%string in
  let user := if String.eqb (username wt) "" then None
              else Some (username wt) in
  tr ++ [LogInfo stream user (RemoveNonGraphicChar logs)].

Definition auditLogs (wt : WebTTY) (tr : list Event)
           (buffer : list byte) (fromFe : bool) : WebTTY * list Event :=
  if negb (auditEnabled wt) then (wt, tr)
  else
    let buffer := ansi_Strip buffer in
    if fromFe then
      let wt := set_feBuffer wt (feBuffer wt ++ buffer) in
      let pos := LastIndexByte (feBuffer wt) "013"%byte in
      if pos >? -1 then
        let tr := printAuditLogs wt tr (firstn (Z.to_nat pos) (feBuffer wt)) fromFe in
        (set_feBuffer wt (skipn (Z.to_nat (pos + 1)) (feBuffer wt)), tr)
      else (wt, tr)
    else
      let wt := set_beBuffer wt (beBuffer wt ++ buffer) in
      let pos := LastIndexByte (beBuffer wt) "013"%byte in
      if pos >? -1 then
        let tr := printAuditLogs wt tr (firstn (Z.to_nat pos) (beBuffer wt)) fromFe in
        (set_beBuffer wt (skipn (Z.to_nat (pos + 1)) (beBuffer wt)), tr)
      else (wt, tr).

Definition handleMasterReadEvent (wt : WebTTY) (tr : list Event)
           (data : list byte) : WebTTY * list Event * Ret :=
  match data with
  | [] =>
      (wt, tr, Return (Some (ErrorString "unexpected zero length read from master")))
  | tag :: payload =>
      if Byte.eqb tag Input then
        if negb (permitWrite wt) then (wt, tr, Return None)
        else if len data <=? 1 then (wt, tr, Return None)
        else
          let decodedBuffer := repeat x00 (length data) in
          match Decode (decoder wt) decodedBuffer payload with
          | DecodePanic => (wt, tr, Panic)
          | DecodeRet _ _ (Some err) =>
              (wt, tr, Return (Some (Wrapf err "failed to decode received data")))
          | DecodeRet decodedBuffer n None =>
              match slice_to decodedBuffer n with
              | None => (wt, tr, Panic)
              | Some decoded =>
                  let '(wt, tr) := auditLogs wt tr decoded true in
                  match slave_Write tr decoded with
                  | Some err =>
                      (wt, tr ++ [SlaveWrite decoded],
                       Return (Some (Wrapf err "failed to write received data to slave")))
                  | None => (wt, tr ++ [SlaveWrite decoded], Return None)
                  end
              end
          end
      else if Byte.eqb tag Ping then
        match masterWrite tr [Pong] with
        | (tr, Some err) =>
            (wt, tr, Return (Some (Wrapf err "failed to return Pong message to master")))
        | (tr, None) => (wt, tr, Return None)
        end
      else if Byte.eqb tag SetEncoding then
        if bytes_eqb payload (bytes "base64")
        then (set_decoder wt base64_StdEncoding, tr, Return None)
        else if bytes_eqb payload (bytes "null")
        then (set_decoder wt NullCodec, tr, Return None)
        else (wt, tr, Return None)
      else if Byte.eqb tag ResizeTerminal then
        if negb (columns wt =? 0) && negb (rows wt =? 0)
        then (wt, tr, Return None)
        else if len data <=? 1 then
          (wt, tr, Return (Some (ErrorString
             "received malformed remote command for terminal resize: empty payload")))
        else
          match json_Unmarshal payload with
          | inl err =>
              (wt, tr, Return (Some (Wrapf err "received malformed data for terminal resize")))
          | inr (argColumns, argRows) =>
              let rows := if rows wt =? 0 then int_of_float64 argRows
                          else rows wt in
              let columns := if columns wt =? 0 then int_of_float64 argColumns
                             else columns wt in
              (wt, tr ++ [SlaveResizeTerminal columns rows], Return None)
          end
      else (wt, tr, Return (Some (ErrUnknownMessageType tag)))
  end.

(** The chunk size of the slave-to-master loop of [Run]. *)
Definition maxChunkSize (wt : WebTTY) : Z :=
  (* base64 length *)
  let effectiveBufferSize := wrap64 (bufferSize wt - 1) in
  (* max raw data length *)
  wrap64 (Z.quot effectiveBufferSize 4 * 3).

(** [Run] up to the point where it starts the two loops: the error
    it returns, or [None] when the handshake went through. *)
Definition Run_handshake (wt : WebTTY) (tr : list Event)
  : list Event * option error :=
  sendInitializeMessage wt tr !! "failed to send initializing message".

(** The slave-to-master loop of [Run] over the chunks that
    [slave.Read] returns, one per iteration; the read after the last
    chunk fails.  The result is the error the loop ends with. *)
Fixpoint slaveLoop (wt : WebTTY) (tr : list Event)
         (reads : list (list byte)) : WebTTY * list Event * error :=
  match reads with
  | [] => (wt, tr, ErrSlaveClosed)
  | data :: reads' =>
      let '(wt, tr) := auditLogs wt tr data false in
      match handleSlaveReadEvent tr data with
      | (tr, Some err) => (wt, tr, err)
      | (tr, None) => slaveLoop wt tr reads'
      end
  end.

End Bridge.

(** ** Instances to run the bridge on examples *)

(** The message types as gotty's clients use them: the digits '1' to
    '4' from the master, '1' to '6' to the master. *)
#[export] Instance gotty_types : MessageTypes := {|
  Input := "1"%byte;
  Ping := "2"%byte;
  ResizeTerminal := "3"%byte;
  SetEncoding := "4"%byte;
  Output := "1"%byte;
  Pong := "2"%byte;
  SetWindowTitle := "3"%byte;
  SetPreferences := "4"%byte;
  SetReconnect := "5"%byte;
  SetBufferSize := "6"%byte;
  master_types_distinct :=
    ltac:(repeat constructor; simpl; intuition discriminate)
|}.

Definition printable (b : byte) : bool :=
  (32 <=? byte_to_Z b) && (byte_to_Z b <=? 126).

(** Stand-ins for the libraries on the inputs of the examples, which
    are ASCII without escape sequences: a resize payload of two bytes
    is read as columns and rows, any other payload is malformed;
    [ansi.Strip] returns its input as it is; [RemoveNonGraphicChar],
    which strips the non-printable characters, keeps the printable
    ASCII ones. *)
Definition plain_libraries : Libraries := {|
  float64 := Z;
  json_Unmarshal := fun payload =>
    match payload with
    | [c; r] => inr (byte_to_Z c, byte_to_Z r)
    | _ => inl (UnmarshalError "unexpected end of JSON input")
    end;
  int_of_float64 := fun f => f;
  ansi_Strip := fun buffer => buffer;
  RemoveNonGraphicChar := filter printable
|}.

(** Connections on which every write succeeds. *)
Definition reliable : Conns := {|
  masterConn_Write := fun _ _ => None;
  slave_Write := fun _ _ => None
|}.

(** A master connection whose write number [k] (from 0) fails. *)
Definition master_fails_at (k : nat) : Conns := {|
  masterConn_Write := fun tr _ =>
    if (length tr =? k)%nat then Some (ConnError "broken pipe") else None;
  slave_Write := fun _ _ => None
|}.

Definition CR : byte := "013"%byte.

(** A bridge with both dimensions fixed, as [WithFixedColumns(80)] and
    [WithFixedRows(24)] leave it. *)
Definition fixed_80x24 : WebTTY :=
  {| windowTitle := []; permitWrite := true; columns := 80; rows := 24;
     reconnect := 0; masterPrefs := None; username := EmptyString;
     auditEnabled := false; decoder := NullCodec; bufferSize := 1024;
     feBuffer := []; beBuffer := [] |}.

(** A bridge with a negative reconnect interval. *)
Definition reconnect_minus_1 : WebTTY :=
  {| windowTitle := bytes "sh"; permitWrite := false; columns := 0; rows := 0;
     reconnect := -1; masterPrefs := None; username := EmptyString;
     auditEnabled := false; decoder := NullCodec; bufferSize := 1024;
     feBuffer := []; beBuffer := [] |}.

(** A bridge that audits. *)
Definition audited : WebTTY :=
  {| windowTitle := []; permitWrite := true; columns := 0; rows := 0;
     reconnect := 10; masterPrefs := Some (bytes "{}"); username := EmptyString;
     auditEnabled := true; decoder := NullCodec; bufferSize := 1024;
     feBuffer := []; beBuffer := [] |}.

(** A handler ends with a fatal error. *)
Definition fatal (r : Ret) : Prop := exists err, r = Return (Some err).

(** A resize payload that [json.Unmarshal] rejects. *)
Definition undecodable {L : Libraries} (payload : list byte) : Prop :=
  exists err, json_Unmarshal payload = inl err.

Definition both_fixed (wt : WebTTY) : Prop := columns wt <> 0 /\ rows wt <> 0.

(** ** The handshake and the audit sink, as the specification words them *)

(** The handshake of the specification: the messages in the order they
    are sent, each with the text that names its step when its write
    fails.  Set-reconnect is there when the interval is positive,
    set-preferences when preferences are configured. *)
Definition handshake_spec {MT : MessageTypes} (wt : WebTTY)
  : list (list byte * string) :=
  [(SetWindowTitle :: windowTitle wt, "failed to send window title"%string);
   (SetBufferSize :: json_Marshal_int (bufferSize wt),
    "failed to send buffer size"%string)]
  ++ (if reconnect wt >? 0
      then [(SetReconnect :: json_Marshal_int (reconnect wt),
             "failed to set reconnect"%string)]
      else [])
  ++ match masterPrefs wt with
     | Some prefs => [(SetPreferences :: prefs, "failed to set preferences"%string)]
     | None => []
     end.

(** Write the messages of [steps] in order and stop at the first write
    that fails, with its error wrapped by the name of the step. *)
Fixpoint writeSteps {C : Conns} (tr : list Event)
         (steps : list (list byte * string)) : list Event * option error :=
  match steps with
  | [] => (tr, None)
  | (msg, name) :: steps' =>
      match masterConn_Write tr msg with
      | Some err =>
          (tr ++ [MasterWrite msg],
           Some (Wrapf (Wrapf err "failed to write to master") name))
      | None => writeSteps (tr ++ [MasterWrite msg]) steps'
      end
  end.

Definition writesOf (steps : list (list byte * string)) : list Event :=
  map (fun step => MasterWrite (fst step)) steps.

(** Every write to the master among the events [new], made after the
    trace [tr], returned nil when it was made. *)
Fixpoint writes_succeeded {C : Conns} (tr new : list Event) : Prop :=
  match new with
  | [] => True
  | e :: new' =>
      match e with
      | MasterWrite msg => masterConn_Write tr msg = None
      | _ => True
      end
      /\ writes_succeeded (tr ++ [e]) new'
  end.

(** The accumulator of a direction. *)
Definition accumulator (fromFe : bool) (wt : WebTTY) : list byte :=
  if fromFe then feBuffer wt else beBuffer wt.

Definition no_CR (buffer : list byte) : Prop := ~ In CR buffer.

(** [auditLogs] called once per element of [calls], in order. *)
Fixpoint auditLogsAll {L : Libraries} (wt : WebTTY) (tr : list Event)
         (calls : list (list byte * bool)) : WebTTY * list Event :=
  match calls with
  | [] => (wt, tr)
  | (buffer, fromFe) :: calls' =>
      let '(wt, tr) := auditLogs wt tr buffer fromFe in
      auditLogsAll wt tr calls'
  end.

(** ** Reading the trace back *)

(** The messages written to the master, in order. *)
Fixpoint frontMessages (tr : list Event) : list (list byte) :=
  match tr with
  | [] => []
  | MasterWrite data :: tr' => data :: frontMessages tr'
  | _ :: tr' => frontMessages tr'
  end.

(** What the receiver of an Output message does: strip the tag and
    decode the rest with the matching codec. *)
Definition decodeOutput {MT : MessageTypes} (msg : list byte)
  : option (list byte) :=
  match msg with
  | [] => None
  | tag :: payload =>
      if Byte.eqb tag Output then
        match base64.DecodeString payload with
        | (data, None) => Some data
        | (_, Some _) => None
        end
      else None
  end.

(** The decoded outputs of a sequence of messages, one after the
    other. *)
Fixpoint decodeOutputs {MT : MessageTypes} (msgs : list (list byte))
  : option (list byte) :=
  match msgs with
  | [] => Some []
  | msg :: msgs' =>
      match decodeOutput msg, decodeOutputs msgs' with
      | Some data, Some rest => Some (data ++ rest)
      | _, _ => None
      end
  end.

(** A bridge with a buffer of size zero. *)
Definition zero_buffer : WebTTY :=
  {| windowTitle := []; permitWrite := false; columns := 0; rows := 0;
     reconnect := 0; masterPrefs := None; username := EmptyString;
     auditEnabled := false; decoder := NullCodec; bufferSize := 0;
     feBuffer := []; beBuffer := [] |}.

(** ** The master-to-slave loop and more of the trace *)

(** The master-to-slave loop of [Run] over the messages that
    [masterConn.Read] returns, one per iteration; the read after the
    last message fails.  The loop ends with the error it returns, or
    with the panic of a handler. *)
Fixpoint masterLoop {MT : MessageTypes} {L : Libraries} {C : Conns}
         (wt : WebTTY) (tr : list Event) (reads : list (list byte))
  : WebTTY * list Event * Ret :=
  match reads with
  | [] => (wt, tr, Return (Some ErrMasterClosed))
  | data :: reads' =>
      match handleMasterReadEvent wt tr data with
      | (wt, tr, Return None) => masterLoop wt tr reads'
      | (wt, tr, Return (Some err)) => (wt, tr, Return (Some err))
      | (wt, tr, Panic) => (wt, tr, Panic)
      end
  end.

(** The writes to the slave, in order. *)
Fixpoint slaveWrites (tr : list Event) : list (list byte) :=
  match tr with
  | [] => []
  | SlaveWrite data :: tr' => data :: slaveWrites tr'
  | _ :: tr' => slaveWrites tr'
  end.

(** The calls of the slave's [ResizeTerminal], in order. *)
Fixpoint resizeCalls (tr : list Event) : list (Z * Z) :=
  match tr with
  | [] => []
  | SlaveResizeTerminal columns rows :: tr' => (columns, rows) :: resizeCalls tr'
  | _ :: tr' => resizeCalls tr'
  end.

(** The entries given to the logger, in order. *)
Fixpoint logEntries (tr : list Event) : list Event :=
  match tr with
  | [] => []
  | LogInfo stream user msg :: tr' => LogInfo stream user msg :: logEntries tr'
  | _ :: tr' => logEntries tr'
  end.

(** What the receiver of a set-buffer-size or set-reconnect message
    does with its payload: read the decimal digits. *)
Definition parse_int (payload : list byte) : option Z :=
  option_map Z.of_int
    (DecimalString.NilZero.int_of_string (string_of_list_byte payload)).


(** ** The middleware of the server

    The handlers of [server], over the effects of a request on the
    response writer and on the log, in order.  [r.BasicAuth()] is part
    of the request: the user and the password of its Authorization
    header, when it has one that parses. *)
Module server.

Record Request : Type := {
  RemoteAddr : string;
  BasicAuth : option (string * string)
}.

Inductive Effect : Type :=
| HeaderSet (key value : string)       (* w.Header().Set(key, value) *)
| Error (msg : string) (code : Z)      (* http.Error(w, msg, code) *)
| LogPrintf (msg : string).            (* log.Printf *)

(** [handler.ServeHTTP(w, r)]: the effects after those so far. *)
Definition Handler : Type := Request -> list Effect -> list Effect.

Definition StatusUnauthorized : Z := 401.

(** The double quote of the realm. *)
Definition quote : string := String (ascii_of_nat 34) EmptyString.

Definition wrapHeaders (handler : Handler) : Handler :=
  fun r w =>
    (* todo add version *)
    let w := w ++ [HeaderSet "Server" "GoTTY"] in
    handler r w.

Definition wrapBasicAuth (handler : Handler) (credential : string) : Handler :=
  fun r w =>
    match BasicAuth r with
    | None =>
        w ++ [HeaderSet "WWW-Authenticate"
                (String.append "Basic realm="
                   (String.append quote (String.append "GoTTY" quote)));
              Error "Bad Request" StatusUnauthorized]
    | Some (u, p) =>
        if negb (String.eqb credential
                   (String.append u (String.append ":" p)))
        then w ++ [Error "authorization failed" StatusUnauthorized]
        else
          handler r
            (w ++ [LogPrintf (String.append "Basic Authentication Succeeded: "
                                (RemoteAddr r))])
    end.

(** The final handler of an example: it answers with a header of its
    own. *)
Definition index : Handler :=
  fun _ w => w ++ [HeaderSet "Content-Type" "text/html"].

End server.

(** A slave connection whose writes fail. *)
Definition slave_closed : Conns := {|
  masterConn_Write := fun _ _ => None;
  slave_Write := fun _ _ => Some (ConnError "input/output error")
|}.

(** A bridge that permits writes and decodes base64. *)
Definition writable_base64 : WebTTY :=
  {| windowTitle := []; permitWrite := true; columns := 0; rows := 24;
     reconnect := 0; masterPrefs := None; username := "operator"%string;
     auditEnabled := true; decoder := base64_StdEncoding; bufferSize := 1024;
     feBuffer := []; beBuffer := [] |}.

(** The settings of a bridge, which the options of [New] fix. *)
Definition same_settings (wt wt' : WebTTY) : Prop :=
  windowTitle wt' = windowTitle wt /\ permitWrite wt' = permitWrite wt
  /\ columns wt' = columns wt /\ rows wt' = rows wt
  /\ reconnect wt' = reconnect wt /\ masterPrefs wt' = masterPrefs wt
  /\ username wt' = username wt /\ auditEnabled wt' = auditEnabled wt
  /\ bufferSize wt' = bufferSize wt.

(** The tag of a message is one of the four that the master sends. *)
Definition known_type {MT : MessageTypes} (tag : byte) : Prop :=
  tag = Input \/ tag = Ping \/ tag = SetEncoding \/ tag = ResizeTerminal.

(** * Properties *)

(** ** Message types *)

Lemma byte_eqb_refl (b : byte) : Byte.eqb b b = true.
Proof. now apply Byte.byte_dec_lb. Qed.

Lemma byte_eqb_neq (a b : byte) : a <> b -> Byte.eqb a b = false.
Proof.
  intros H. destruct (Byte.eqb a b) eqn:E; [|reflexivity].
  now apply Byte.byte_dec_bl in E.
Qed.

Lemma bytes_eqb_eq (a b : list byte) : bytes_eqb a b = true <-> a = b.
Proof.
  revert b. induction a as [|x a IH]; intros [|y b]; simpl;
    try (split; [discriminate | discriminate]); [tauto|].
  rewrite andb_true_iff, IH. split.
  - intros [H ->]. apply Byte.byte_dec_bl in H. now subst.
  - intros [= -> ->]. split; [apply byte_eqb_refl | reflexivity].
Qed.

Section MessageTypeFacts.

Context {MT : MessageTypes}.

Lemma Ping_not_Input : Byte.eqb Ping Input = false.
Proof.
  apply byte_eqb_neq. pose proof master_types_distinct as H.
  inversion H as [|? ? Hin _]; subst. intros E. apply Hin. simpl. auto.
Qed.

Lemma SetEncoding_not_Input : Byte.eqb SetEncoding Input = false.
Proof.
  apply byte_eqb_neq. pose proof master_types_distinct as H.
  inversion H as [|? ? Hin _]; subst. intros E. apply Hin. simpl. auto.
Qed.

Lemma SetEncoding_not_Ping : Byte.eqb SetEncoding Ping = false.
Proof.
  apply byte_eqb_neq. pose proof master_types_distinct as H.
  inversion H as [|? ? _ H']; subst. inversion H' as [|? ? Hin _]; subst.
  intros E. apply Hin. simpl. auto.
Qed.

Lemma ResizeTerminal_not_Input : Byte.eqb ResizeTerminal Input = false.
Proof.
  apply byte_eqb_neq. pose proof master_types_distinct as H.
  inversion H as [|? ? Hin _]; subst. intros E. apply Hin. simpl. auto.
Qed.

Lemma ResizeTerminal_not_Ping : Byte.eqb ResizeTerminal Ping = false.
Proof.
  apply byte_eqb_neq. pose proof master_types_distinct as H.
  inversion H as [|? ? _ H']; subst. inversion H' as [|? ? Hin _]; subst.
  intros E. apply Hin. simpl. auto.
Qed.

Lemma ResizeTerminal_not_SetEncoding : Byte.eqb ResizeTerminal SetEncoding = false.
Proof.
  apply byte_eqb_neq. pose proof master_types_distinct as H.
  inversion H as [|? ? _ H']; subst. inversion H' as [|? ? _ H'']; subst.
  inversion H'' as [|? ? Hin _]; subst.
  intros E. apply Hin. simpl. auto.
Qed.

End MessageTypeFacts.

Create Rewrite HintDb tags.
#[export] Hint Rewrite byte_eqb_refl @Ping_not_Input @SetEncoding_not_Input
  @SetEncoding_not_Ping @ResizeTerminal_not_Input @ResizeTerminal_not_Ping
  @ResizeTerminal_not_SetEncoding : tags.

(** Select the case of the [switch] on [data[0]]. *)
Ltac switch_on_tag :=
  unfold handleMasterReadEvent; autorewrite with tags.

(** ** Resize messages *)

Section Resize.

Context {MT : MessageTypes} {L : Libraries} {C : Conns}.

(** With a dimension left to the client, a resize message goes
    through the payload checks. *)
Lemma resize_not_both_fixed (wt : WebTTY) (tr : list Event) (payload : list byte) :
  columns wt = 0 \/ rows wt = 0 ->
  handleMasterReadEvent wt tr (ResizeTerminal :: payload) =
  match payload with
  | [] =>
      (wt, tr, Return (Some (ErrorString
         "received malformed remote command for terminal resize: empty payload")))
  | _ :: _ =>
      match json_Unmarshal payload with
      | inl err =>
          (wt, tr, Return (Some (Wrapf err "received malformed data for terminal resize")))
      | inr (argColumns, argRows) =>
          (wt,
           tr ++ [SlaveResizeTerminal
                    (if columns wt =? 0 then int_of_float64 argColumns else columns wt)
                    (if rows wt =? 0 then int_of_float64 argRows else rows wt)],
           Return None)
      end
  end.
Proof.
  intros Hfree. switch_on_tag.
  replace (negb (columns wt =? 0) && negb (rows wt =? 0)) with false
    by (destruct Hfree as [-> | ->]; simpl; now rewrite ?andb_false_r).
  destruct payload as [|c payload]; [reflexivity|].
  replace (len (ResizeTerminal :: c :: payload) <=? 1) with false
    by (symmetry; apply Z.leb_gt; unfold len; simpl length; lia).
  destruct (json_Unmarshal (c :: payload)) as [err | [argColumns argRows]];
    reflexivity.
Qed.

Lemma resize_both_fixed (wt : WebTTY) (tr : list Event) (payload : list byte) :
  columns wt <> 0 -> rows wt <> 0 ->
  handleMasterReadEvent wt tr (ResizeTerminal :: payload) = (wt, tr, Return None).
Proof.
  intros Hc Hr. switch_on_tag.
  apply Z.eqb_neq in Hc, Hr. now rewrite Hc, Hr.
Qed.

(** C2.  When both configured dimensions are nonzero, a resize
    message with any payload, empty and malformed ones included,
    returns nil and leaves the bridge and the trace as they were: the
    slave's [ResizeTerminal] is not called. *)
Theorem resize_ignored_when_both_fixed
        (wt : WebTTY) (tr : list Event) (payload : list byte) :
  columns wt <> 0 -> rows wt <> 0 ->
  handleMasterReadEvent wt tr (ResizeTerminal :: payload) = (wt, tr, Return None)
  /\ (forall columns rows,
        ~ In (SlaveResizeTerminal columns rows)
             (skipn (length tr)
                (snd (fst (handleMasterReadEvent wt tr (ResizeTerminal :: payload)))))).
Proof.
  intros Hc Hr.
  assert (E : handleMasterReadEvent wt tr (ResizeTerminal :: payload)
              = (wt, tr, Return None)).
  { switch_on_tag.
    destruct (columns wt =? 0) eqn:Ec; [apply Z.eqb_eq in Ec; contradiction|].
    destruct (rows wt =? 0) eqn:Er; [apply Z.eqb_eq in Er; contradiction|].
    reflexivity. }
  rewrite E. split; [reflexivity|].
  intros c r. cbn [fst snd]. rewrite skipn_all. intros [].
Qed.

(** C1, as the code has it.  A resize message is rejected with a
    fatal error if and only if a dimension is left to the client
    (columns or rows is 0) and the payload is empty or is rejected by
    [json.Unmarshal]. *)
Theorem resize_rejected_iff
        (wt : WebTTY) (tr : list Event) (payload : list byte) :
  fatal (snd (handleMasterReadEvent wt tr (ResizeTerminal :: payload))) <->
  ~ both_fixed wt /\ (payload = [] \/ undecodable payload).
Proof.
  unfold both_fixed, undecodable, fatal.
  destruct (Z.eq_dec (columns wt) 0) as [Hc | Hc];
    [| destruct (Z.eq_dec (rows wt) 0) as [Hr | Hr]].
  3: { rewrite resize_both_fixed by assumption. simpl.
       split; [intros [err [=]] | intros [H _]; exfalso; apply H; auto]. }
  all: rewrite resize_not_both_fixed by auto.
  all: assert (Hfree : ~ (columns wt <> 0 /\ rows wt <> 0)) by tauto.
  all: destruct payload as [|c payload];
    [ simpl; split;
      [ intros _; split; [exact Hfree | left; reflexivity]
      | intros _; eexists; reflexivity ]
    | destruct (json_Unmarshal (c :: payload)) as [err | [argColumns argRows]];
      simpl;
      [ split;
        [ intros _; split; [exact Hfree | right; exists err; reflexivity]
        | intros _; eexists; reflexivity ]
      | split;
        [ intros [e [=]]
        | intros [_ [[=] | [e [=]]]] ] ] ].
Qed.

End Resize.

Lemma resize_ignored_when_both_fixed_witness :
  @handleMasterReadEvent gotty_types plain_libraries reliable
    fixed_80x24 [] (ResizeTerminal :: bytes "{") =
  (fixed_80x24, [], Return None).
Proof.
  apply (@resize_ignored_when_both_fixed gotty_types plain_libraries reliable
           fixed_80x24 [] (bytes "{")); simpl; lia.
Defined.

(** C1 as the specification words it fails: with 80 columns and 24 rows
    fixed, a resize message with an empty payload is not rejected. *)
Lemma resize_rejected_regardless_of_fixed_counterexample :
  ~ (fatal (snd (@handleMasterReadEvent gotty_types plain_libraries reliable
                   fixed_80x24 [] [ResizeTerminal])) <->
     (@nil byte = [] \/ @undecodable plain_libraries [])).
Proof.
  intros [_ H]. destruct (H (or_introl eq_refl)) as [err Herr].
  discriminate Herr.
Qed.

(** ** Input and set-encoding messages *)

Section MasterMessages.

Context {MT : MessageTypes} {L : Libraries} {C : Conns}.

(** C5.  An Input message received while writes are not permitted
    returns nil, writes nothing to the slave (the trace is as it was)
    and leaves the bridge, with its decoder, audit buffers and
    dimensions, as it was. *)
Theorem input_discarded_without_write_permission
        (wt : WebTTY) (tr : list Event) (payload : list byte) :
  permitWrite wt = false ->
  handleMasterReadEvent wt tr (Input :: payload) = (wt, tr, Return None).
Proof.
  intros Hro. switch_on_tag. now rewrite Hro.
Qed.

(** C6.  A set-encoding message returns nil and calls neither
    connection; its payload "base64" makes [base64.StdEncoding] the
    decoder, "null" makes [NullCodec] the decoder, and with any other
    payload the bridge, decoder included, is as it was. *)
Theorem set_encoding_selects_decoder
        (wt : WebTTY) (tr : list Event) (payload : list byte) :
  handleMasterReadEvent wt tr (SetEncoding :: payload) =
  (if bytes_eqb payload (bytes "base64") then set_decoder wt base64_StdEncoding
   else if bytes_eqb payload (bytes "null") then set_decoder wt NullCodec
   else wt,
   tr, Return None)
  /\ (payload = bytes "base64" ->
      decoder (fst (fst (handleMasterReadEvent wt tr (SetEncoding :: payload))))
      = base64_StdEncoding)
  /\ (payload = bytes "null" ->
      decoder (fst (fst (handleMasterReadEvent wt tr (SetEncoding :: payload))))
      = NullCodec)
  /\ (payload <> bytes "base64" -> payload <> bytes "null" ->
      fst (fst (handleMasterReadEvent wt tr (SetEncoding :: payload))) = wt).
Proof.
  assert (E : handleMasterReadEvent wt tr (SetEncoding :: payload) =
              (if bytes_eqb payload (bytes "base64")
               then set_decoder wt base64_StdEncoding
               else if bytes_eqb payload (bytes "null")
                    then set_decoder wt NullCodec
                    else wt,
               tr, Return None)).
  { switch_on_tag.
    destruct (bytes_eqb payload (bytes "base64")); [reflexivity|].
    destruct (bytes_eqb payload (bytes "null")); reflexivity. }
  rewrite E. split; [reflexivity|]. simpl. repeat split.
  - intros ->. reflexivity.
  - intros ->. reflexivity.
  - intros H1 H2.
    destruct (bytes_eqb payload (bytes "base64")) eqn:E1;
      [apply bytes_eqb_eq in E1; contradiction|].
    destruct (bytes_eqb payload (bytes "null")) eqn:E2;
      [apply bytes_eqb_eq in E2; contradiction|].
    reflexivity.
Qed.

End MasterMessages.

Lemma input_discarded_without_write_permission_witness :
  @handleMasterReadEvent gotty_types plain_libraries reliable
    New [] (Input :: bytes "rm -rf /") = (New, [], Return None).
Proof.
  apply (@input_discarded_without_write_permission gotty_types plain_libraries
           reliable New [] (bytes "rm -rf /")); reflexivity.
Defined.

Lemma set_encoding_selects_decoder_witness :
  decoder (fst (fst (@handleMasterReadEvent gotty_types plain_libraries reliable
                       New [] (SetEncoding :: bytes "base64"))))
  = base64_StdEncoding /\
  fst (fst (@handleMasterReadEvent gotty_types plain_libraries reliable
              fixed_80x24 [] (SetEncoding :: bytes "utf-8"))) = fixed_80x24.
Proof.
  split.
  - apply (@set_encoding_selects_decoder gotty_types plain_libraries reliable
             New [] (bytes "base64")); reflexivity.
  - apply (@set_encoding_selects_decoder gotty_types plain_libraries reliable
             fixed_80x24 [] (bytes "utf-8")); discriminate.
Defined.

(** ** The handshake *)

Section Handshake.

Context {MT : MessageTypes} {C : Conns}.

Lemma sendInitializeMessage_steps (wt : WebTTY) (tr : list Event) :
  sendInitializeMessage wt tr = writeSteps tr (handshake_spec wt).
Proof.
  unfold sendInitializeMessage, handshake_spec, masterWrite, wrapped, andThen.
  simpl.
  destruct (masterConn_Write tr _); [reflexivity|].
  destruct (masterConn_Write (tr ++ _) _); [reflexivity|].
  destruct (reconnect wt >? 0); simpl.
  - destruct (masterConn_Write ((tr ++ _) ++ _) _); [reflexivity|].
    destruct (masterPrefs wt); simpl; [|reflexivity].
    destruct (masterConn_Write _ _); reflexivity.
  - destruct (masterPrefs wt); simpl; [|reflexivity].
    destruct (masterConn_Write _ _); reflexivity.
Qed.

Lemma writes_succeeded_app (a b : list Event) :
  forall tr,
  writes_succeeded tr (a ++ b)
  <-> writes_succeeded tr a /\ writes_succeeded (tr ++ a) b.
Proof.
  induction a as [|e a IH]; intros tr; cbn [app writes_succeeded].
  - rewrite app_nil_r. tauto.
  - rewrite IH, <- app_assoc. cbn [app]. tauto.
Qed.

(** Either every write returned nil and every step is written, or the
    steps up to the first one whose write fails are. *)
Lemma writeSteps_outcome (steps : list (list byte * string)) :
  forall tr,
  (writes_succeeded tr (writesOf steps)
   /\ writeSteps tr steps = (tr ++ writesOf steps, None))
  \/ (exists done msg name rest err,
        steps = done ++ (msg, name) :: rest
        /\ writes_succeeded tr (writesOf done)
        /\ masterConn_Write (tr ++ writesOf done) msg = Some err
        /\ writeSteps tr steps =
           (tr ++ writesOf done ++ [MasterWrite msg],
            Some (Wrapf (Wrapf err "failed to write to master") name))).
Proof.
  induction steps as [|[msg name] steps IH]; intros tr;
    cbn [writeSteps writesOf map fst writes_succeeded].
  - left. now rewrite app_nil_r.
  - destruct (masterConn_Write tr msg) as [err|] eqn:E.
    + right. exists [], msg, name, steps, err.
      cbn [writesOf map app writes_succeeded]. rewrite app_nil_r. auto.
    + destruct (IH (tr ++ [MasterWrite msg])) as
        [[Hok ->] | (done & m & n & rest & err & -> & Hok & Hw & ->)].
      * left. fold (writesOf steps). rewrite <- app_assoc. auto.
      * right. exists ((msg, name) :: done), m, n, rest, err.
        cbn [writesOf map fst app writes_succeeded]. fold (writesOf done).
        rewrite <- !app_assoc in *. cbn [app] in *. auto.
Qed.

(** C7, as the code has it.  [Run] writes, after what was written
    before it and with nothing in between, the messages of the
    handshake in order: set-window-title, set-buffer-size with the
    configured size, set-reconnect when the interval is positive,
    set-preferences when preferences are configured.  When every one
    of these writes returns nil, all of them are written and [Run] goes
    on.  Otherwise [Run] stops at the first write that fails, after
    the writes before it, which returned nil, and returns the error of
    that write, wrapped with the name of the step; so [Run] goes on
    only if no write failed, and with a master whose writes never fail
    it always does. *)
Theorem handshake_in_order (wt : WebTTY) (tr : list Event) :
  ((writes_succeeded tr (writesOf (handshake_spec wt))
    /\ Run_handshake wt tr = (tr ++ writesOf (handshake_spec wt), None))
   \/ (exists done msg name rest err,
         handshake_spec wt = done ++ (msg, name) :: rest
         /\ writes_succeeded tr (writesOf done)
         /\ masterConn_Write (tr ++ writesOf done) msg = Some err
         /\ Run_handshake wt tr =
            (tr ++ writesOf done ++ [MasterWrite msg],
             Some (Wrapf (Wrapf (Wrapf err "failed to write to master") name)
                         "failed to send initializing message"))))
  /\ (snd (Run_handshake wt tr) = None ->
      writes_succeeded tr (writesOf (handshake_spec wt)))
  /\ ((forall tr' msg, masterConn_Write tr' msg = None) ->
      Run_handshake wt tr = (tr ++ writesOf (handshake_spec wt), None)).
Proof.
  unfold Run_handshake, wrapped. rewrite sendInitializeMessage_steps.
  destruct (writeSteps_outcome (handshake_spec wt) tr) as
    [[Hok ->] | (done & msg & name & rest & err & Hs & Hok & Hw & ->)].
  - split; [now left|]. split; [intros _; exact Hok | reflexivity].
  - split; [right; exists done, msg, name, rest, err; auto|].
    split; [discriminate|].
    intros Hnever. rewrite Hnever in Hw. discriminate Hw.
Qed.

End Handshake.

(** The handshake of a bridge with a title, a reconnect interval of 10
    seconds and preferences, on a connection whose third write fails. *)
Example handshake_third_write_fails :
  @Run_handshake gotty_types (master_fails_at 2) audited [] =
  ([MasterWrite (SetWindowTitle :: []);
    MasterWrite (SetBufferSize :: bytes "1024");
    MasterWrite (SetReconnect :: bytes "10")],
   Some (Wrapf (Wrapf (Wrapf (ConnError "broken pipe") "failed to write to master")
                      "failed to set reconnect")
               "failed to send initializing message")).
Proof. reflexivity. Qed.

(** C7 as the specification words it fails: with a reconnect interval
    of -1, which is not zero, the handshake goes through and no
    set-reconnect message is written. *)
Lemma handshake_nonzero_reconnect_counterexample :
  ~ (reconnect reconnect_minus_1 <> 0 ->
     In (MasterWrite (SetReconnect :: json_Marshal_int (reconnect reconnect_minus_1)))
        (fst (@Run_handshake gotty_types reliable reconnect_minus_1 []))).
Proof.
  intros H. assert (Hne : reconnect reconnect_minus_1 <> 0) by (simpl; lia).
  specialize (H Hne). vm_compute in H.
  destruct H as [H | [H | []]]; discriminate H.
Qed.

(** ** The audit sink *)

Lemma LastIndexByte_range (s : list byte) (c : byte) :
  -1 <= LastIndexByte s c < len s.
Proof.
  unfold len. induction s as [|x s IH]; simpl length; simpl LastIndexByte.
  - lia.
  - destruct (0 <=? LastIndexByte s c) eqn:E.
    + apply Z.leb_le in E. lia.
    + destruct (Byte.eqb x c); lia.
Qed.

Lemma LastIndexByte_absent (s : list byte) (c : byte) :
  LastIndexByte s c = -1 -> ~ In c s.
Proof.
  induction s as [|x s IH]; simpl; [tauto|].
  destruct (0 <=? LastIndexByte s c) eqn:E.
  - apply Z.leb_le in E. lia.
  - destruct (Byte.eqb x c) eqn:Ex; [discriminate|].
    intros _ [-> | Hin].
    + now rewrite byte_eqb_refl in Ex.
    + apply Z.leb_gt in E. pose proof (LastIndexByte_range s c).
      apply IH; [lia | exact Hin].
Qed.

(** The bytes before the last [c], then [c], then bytes without [c]. *)
Lemma LastIndexByte_split (s : list byte) (c : byte) :
  0 <= LastIndexByte s c ->
  s = firstn (Z.to_nat (LastIndexByte s c)) s ++ c
      :: skipn (Z.to_nat (LastIndexByte s c + 1)) s
  /\ ~ In c (skipn (Z.to_nat (LastIndexByte s c + 1)) s).
Proof.
  induction s as [|x s IH]; simpl LastIndexByte; [lia|].
  destruct (0 <=? LastIndexByte s c) eqn:E.
  - apply Z.leb_le in E. intros _. destruct (IH E) as [Hs Hno].
    replace (Z.to_nat (LastIndexByte s c + 1))
      with (S (Z.to_nat (LastIndexByte s c))) in * by lia.
    replace (Z.to_nat (LastIndexByte s c + 1 + 1))
      with (S (S (Z.to_nat (LastIndexByte s c)))) by lia.
    simpl firstn. simpl skipn. simpl skipn in Hs, Hno. split.
    + simpl. f_equal. exact Hs.
    + exact Hno.
  - apply Z.leb_gt in E. pose proof (LastIndexByte_range s c) as Hr.
    assert (Hm : LastIndexByte s c = -1) by lia.
    destruct (Byte.eqb x c) eqn:Ex; [|lia].
    apply Byte.byte_dec_bl in Ex. subst x. intros _. simpl. split.
    + reflexivity.
    + now apply LastIndexByte_absent.
Qed.

Section Audit.

Context {L : Libraries}.

Lemma auditLogs_disabled (wt : WebTTY) (tr : list Event)
      (buffer : list byte) (fromFe : bool) :
  auditEnabled wt = false -> auditLogs wt tr buffer fromFe = (wt, tr).
Proof. intros H. unfold auditLogs. now rewrite H. Qed.

(** One call with auditing enabled: the accumulator of the other
    direction is untouched, and the accumulator of this one either
    grows by bytes that leave it without a carriage return, or is
    flushed through its last carriage return, the part before it
    logged and the part after it, which has none, retained. *)
Lemma auditLogs_enabled (wt : WebTTY) (tr : list Event)
      (buffer : list byte) (fromFe : bool) :
  auditEnabled wt = true ->
  let full := accumulator fromFe wt ++ ansi_Strip buffer in
  let wt' := fst (auditLogs wt tr buffer fromFe) in
  let tr' := snd (auditLogs wt tr buffer fromFe) in
  accumulator (negb fromFe) wt' = accumulator (negb fromFe) wt
  /\ no_CR (accumulator fromFe wt')
  /\ ((accumulator fromFe wt' = full /\ tr' = tr)
      \/ (exists line,
            full = line ++ CR :: accumulator fromFe wt'
            /\ tr' = printAuditLogs wt tr line fromFe)).
Proof.
  intros Hen. unfold auditLogs. rewrite Hen. simpl negb. cbv iota.
  destruct fromFe; simpl accumulator; cbv zeta; simpl feBuffer; simpl beBuffer.
  - destruct (LastIndexByte (feBuffer wt ++ ansi_Strip buffer) "013" >? -1) eqn:E;
      simpl.
    + apply Z.gtb_lt in E.
      destruct (LastIndexByte_split (feBuffer wt ++ ansi_Strip buffer) CR)
        as [Hs Hno]; [unfold CR; lia|].
      split; [reflexivity|]. split; [exact Hno|].
      right. eexists. split; [exact Hs | reflexivity].
    + split; [reflexivity|]. split.
      * apply LastIndexByte_absent.
        pose proof (LastIndexByte_range (feBuffer wt ++ ansi_Strip buffer) CR).
        unfold CR in *. rewrite Z.gtb_ltb in E. apply Z.ltb_ge in E. lia.
      * left. auto.
  - destruct (LastIndexByte (beBuffer wt ++ ansi_Strip buffer) "013" >? -1) eqn:E;
      simpl.
    + apply Z.gtb_lt in E.
      destruct (LastIndexByte_split (beBuffer wt ++ ansi_Strip buffer) CR)
        as [Hs Hno]; [unfold CR; lia|].
      split; [reflexivity|]. split; [exact Hno|].
      right. eexists. split; [exact Hs | reflexivity].
    + split; [reflexivity|]. split.
      * apply LastIndexByte_absent.
        pose proof (LastIndexByte_range (beBuffer wt ++ ansi_Strip buffer) CR).
        unfold CR in *. rewrite Z.gtb_ltb in E. apply Z.ltb_ge in E. lia.
      * left. auto.
Qed.

Lemma auditLogs_keeps_no_CR (wt : WebTTY) (tr : list Event)
      (buffer : list byte) (fromFe : bool) :
  no_CR (feBuffer wt) -> no_CR (beBuffer wt) ->
  no_CR (feBuffer (fst (auditLogs wt tr buffer fromFe)))
  /\ no_CR (beBuffer (fst (auditLogs wt tr buffer fromFe))).
Proof.
  intros Hfe Hbe. destruct (auditEnabled wt) eqn:Hen.
  - destruct (auditLogs_enabled wt tr buffer fromFe Hen) as (Hother & Hthis & _).
    destruct fromFe; simpl in Hother, Hthis.
    + split; [exact Hthis | now rewrite Hother].
    + split; [now rewrite Hother | exact Hthis].
  - rewrite auditLogs_disabled by assumption. auto.
Qed.

(** C9.  The accumulators of a bridge hold no carriage return after
    any sequence of calls to [auditLogs], when they held none before
    it, as those of a new bridge, which are empty, do.  One call of a
    bridge that audits leaves the accumulator of the other direction
    as it was, and either appends the stripped input to the
    accumulator of its direction, the two together holding no carriage
    return and nothing being logged, or logs the bytes before the last
    carriage return of the two together and retains the bytes after
    it, which hold none.  A bridge that does not audit returns from the
    call at once, bridge and trace as they were. *)
Theorem accumulators_hold_no_CR (calls : list (list byte * bool)) :
  forall (wt : WebTTY) (tr : list Event),
  no_CR (feBuffer wt) -> no_CR (beBuffer wt) ->
  (no_CR (feBuffer (fst (auditLogsAll wt tr calls)))
   /\ no_CR (beBuffer (fst (auditLogsAll wt tr calls))))
  /\ (forall buffer fromFe,
        let full := accumulator fromFe wt ++ ansi_Strip buffer in
        let wt' := fst (auditLogs wt tr buffer fromFe) in
        let tr' := snd (auditLogs wt tr buffer fromFe) in
        no_CR (accumulator fromFe wt')
        /\ ((auditEnabled wt = false
             /\ auditLogs wt tr buffer fromFe = (wt, tr))
            \/ (auditEnabled wt = true
                /\ accumulator (negb fromFe) wt' = accumulator (negb fromFe) wt
                /\ ((accumulator fromFe wt' = full /\ no_CR full /\ tr' = tr)
                    \/ (exists line,
                          full = line ++ CR :: accumulator fromFe wt'
                          /\ tr' = printAuditLogs wt tr line fromFe))))).
Proof.
  intros wt tr Hfe Hbe. split.
  - revert wt tr Hfe Hbe.
    induction calls as [|[buffer fromFe] calls IH]; intros wt tr Hfe Hbe; simpl.
    + auto.
    + destruct (auditLogs_keeps_no_CR wt tr buffer fromFe Hfe Hbe) as [Hfe' Hbe'].
      destruct (auditLogs wt tr buffer fromFe) as [wt' tr']. simpl in Hfe', Hbe'.
      now apply IH.
  - intros buffer fromFe. cbv zeta.
    destruct (auditEnabled wt) eqn:Hen.
    + destruct (auditLogs_enabled wt tr buffer fromFe Hen)
        as (Hother & Hno & [[Hgrow Htr] | [line [Hflush Htr]]]).
      * split; [exact Hno|]. right. split; [reflexivity|].
        split; [exact Hother|]. left.
        split; [exact Hgrow|]. split; [now rewrite <- Hgrow | exact Htr].
      * split; [exact Hno|]. right. split; [reflexivity|].
        split; [exact Hother|]. right. exists line. auto.
    + rewrite auditLogs_disabled by assumption. cbn [fst].
      split; [destruct fromFe; assumption | left; auto].
Qed.

(** C8, as the code has it.  With auditing enabled and an empty
    accumulator, the input "ls" with a carriage return and then, in a
    later call, a lone carriage return give two log lines: "ls" and
    then an empty one; the accumulator is empty after both. *)
Theorem audit_ls_then_CR_logs_two_lines
        (wt : WebTTY) (tr : list Event) (fromFe : bool) :
  auditEnabled wt = true ->
  accumulator fromFe wt = [] ->
  ansi_Strip (bytes "ls" ++ [CR]) = bytes "ls" ++ [CR] ->
  ansi_Strip [CR] = [CR] ->
  RemoveNonGraphicChar (bytes "ls") = bytes "ls" ->
  RemoveNonGraphicChar [] = [] ->
  let stream := if fromFe then "browser"%string else "backend"%string in
  let user := if String.eqb (username wt) "" then None else Some (username wt) in
  let '(wt1, tr1) := auditLogs wt tr (bytes "ls" ++ [CR]) fromFe in
  let '(wt2, tr2) := auditLogs wt1 tr1 [CR] fromFe in
  tr1 = tr ++ [LogInfo stream user (bytes "ls")]
  /\ tr2 = tr ++ [LogInfo stream user (bytes "ls"); LogInfo stream user []]
  /\ accumulator fromFe wt1 = []
  /\ accumulator fromFe wt2 = [].
Proof.
  intros Hen Hacc Hls Hcr Hg1 Hg2.
  change (bytes "ls") with ["l"%byte; "s"%byte] in *.
  unfold auditLogs. rewrite Hen. simpl negb. cbv iota. rewrite Hls.
  destruct fromFe; simpl in Hacc; cbv zeta; simpl feBuffer; simpl beBuffer;
    rewrite Hacc; simpl; rewrite Hen; simpl; rewrite Hcr; simpl;
    unfold printAuditLogs; simpl; rewrite Hg1, Hg2, <- app_assoc; simpl; auto.
Qed.

End Audit.

Lemma accumulators_hold_no_CR_witness :
  no_CR (feBuffer (fst (@auditLogsAll plain_libraries audited []
           [(bytes "ls" ++ [CR], true); (bytes "total 0", false); ([CR], true)])))
  /\ no_CR (beBuffer (fst (@auditLogsAll plain_libraries audited []
           [(bytes "ls" ++ [CR], true); (bytes "total 0", false); ([CR], true)]))).
Proof.
  apply (@accumulators_hold_no_CR plain_libraries
           [(bytes "ls" ++ [CR], true); (bytes "total 0", false); ([CR], true)]
           audited []); simpl; intros H; exact H.
Defined.

Lemma audit_ls_then_CR_logs_two_lines_witness :
  let '(wt1, tr1) := @auditLogs plain_libraries audited [] (bytes "ls" ++ [CR]) true in
  let '(wt2, tr2) := @auditLogs plain_libraries wt1 tr1 [CR] true in
  tr1 = [] ++ [LogInfo "browser" None (bytes "ls")]
  /\ tr2 = [] ++ [LogInfo "browser" None (bytes "ls"); LogInfo "browser" None []]
  /\ accumulator true wt1 = []
  /\ accumulator true wt2 = [].
Proof.
  apply (@audit_ls_then_CR_logs_two_lines plain_libraries audited [] true);
    reflexivity.
Defined.

(** C8 as the specification words it fails: after "ls" with a carriage
    return and then a lone carriage return, the log does not hold
    exactly one line. *)
Lemma audit_ls_then_CR_one_line_counterexample :
  ~ (exists line,
       snd (let '(wt1, tr1) :=
              @auditLogs plain_libraries audited [] (bytes "ls" ++ [CR]) true in
            @auditLogs plain_libraries wt1 tr1 [CR] true) = [line]).
Proof.
  intros [line H]. vm_compute in H. discriminate H.
Qed.

(** ** The text-safe encoding *)

Lemma byte_to_Z_range (b : byte) : 0 <= byte_to_Z b < 256.
Proof.
  unfold byte_to_Z. pose proof (Byte.to_N_bounded b). lia.
Qed.

Lemma byte_of_Z_eq (z : Z) (b : byte) :
  z mod 256 = byte_to_Z b -> byte_of_Z z = b.
Proof.
  intros H. unfold byte_of_Z. rewrite H. unfold byte_to_Z.
  now rewrite N2Z.id, Byte.of_to_N.
Qed.

(** Evaluate the powers of two of a goal and decide it. *)
Ltac pow2_lia :=
  repeat match goal with
         | |- context [2 ^ Zpos ?n] =>
             let v := eval vm_compute in (2 ^ Zpos n) in
             change (2 ^ Zpos n) with v
         end;
  Z.div_mod_to_equations; lia.

(** Bits that do not overlap are added. *)
Lemma lor_disjoint (a b n : Z) :
  0 <= n -> a mod 2 ^ n = 0 -> 0 <= b < 2 ^ n -> Z.lor a b = a + b.
Proof.
  intros Hn Ha Hb.
  assert (Hland : Z.land a b = 0).
  { apply Z.bits_inj'. intros m Hm. rewrite Z.land_spec, Z.bits_0.
    destruct (Z.lt_ge_cases m n) as [Hlt | Hge].
    - rewrite <- (Z.mod_pow2_bits_low a n m) by lia. rewrite Ha.
      now rewrite Z.bits_0.
    - destruct (Z.eq_dec b 0) as [-> | Hb0].
      + now rewrite Z.bits_0, andb_false_r.
      + rewrite (Z.bits_above_log2 b m), andb_false_r; [reflexivity | lia |].
        apply Z.lt_le_trans with n; [|exact Hge].
        apply Z.log2_lt_pow2; lia. }
  rewrite <- Z.lxor_lor by exact Hland.
  symmetry. now apply Z.add_nocarry_lxor.
Qed.

Module base64_facts.
Import base64.

Lemma decodeMap_encode (i : Z) : 0 <= i < 64 -> decodeMap (encode i) = i.
Proof.
  intros Hi.
  assert (H : forallb (fun n => decodeMap (encode (Z.of_nat n)) =? Z.of_nat n)
                      (seq 0 64) = true) by (vm_compute; reflexivity).
  rewrite forallb_forall in H.
  specialize (H (Z.to_nat i)). rewrite Z2Nat.id in H by lia.
  apply Z.eqb_eq, H, in_seq. lia.
Qed.

Lemma land_63 (v : Z) : 0 <= Z.land v 63 < 64.
Proof.
  change 63 with (Z.ones 6). rewrite Z.land_ones by lia.
  apply Z.mod_pos_bound. reflexivity.
Qed.

Lemma decodeMap_sextet (val k : Z) :
  decodeMap (sextet val k) = Z.land (Z.shiftr val k) 63.
Proof. apply decodeMap_encode, land_63. Qed.

Lemma decodeMap_sextet_valid (val k : Z) :
  negb (decodeMap (sextet val k) =? 255) = true.
Proof.
  rewrite decodeMap_sextet. pose proof (land_63 (Z.shiftr val k)).
  apply negb_true_iff, Z.eqb_neq. lia.
Qed.

(** The value that [Encode] splits into sextets. *)
Lemma val_of_bytes (z0 z1 z2 : Z) :
  0 <= z0 < 256 -> 0 <= z1 < 256 -> 0 <= z2 < 256 ->
  Z.lor (Z.lor (Z.shiftl z0 16) (Z.shiftl z1 8)) z2
  = z0 * 65536 + z1 * 256 + z2.
Proof.
  intros H0 H1 H2. rewrite !Z.shiftl_mul_pow2 by lia.
  rewrite (lor_disjoint (z0 * 2 ^ 16) (z1 * 2 ^ 8) 16) by pow2_lia.
  rewrite (lor_disjoint _ z2 8) by pow2_lia. pow2_lia.
Qed.

(** The value that [decodeQuantum] puts together. *)
Lemma val_of_sextets (d0 d1 d2 d3 : Z) :
  0 <= d0 < 64 -> 0 <= d1 < 64 -> 0 <= d2 < 64 -> 0 <= d3 < 64 ->
  Z.lor (Z.lor (Z.lor (Z.shiftl d0 18) (Z.shiftl d1 12)) (Z.shiftl d2 6)) d3
  = d0 * 262144 + d1 * 4096 + d2 * 64 + d3.
Proof.
  intros H0 H1 H2 H3. rewrite !Z.shiftl_mul_pow2 by lia.
  rewrite (lor_disjoint (d0 * 2 ^ 18) (d1 * 2 ^ 12) 18) by pow2_lia.
  rewrite (lor_disjoint _ (d2 * 2 ^ 6) 12) by pow2_lia.
  rewrite (lor_disjoint _ d3 6) by pow2_lia. pow2_lia.
Qed.

Lemma sextet_index (val k : Z) :
  0 <= k -> Z.land (Z.shiftr val k) 63 = (val / 2 ^ k) mod 64.
Proof.
  intros Hk. change 63 with (Z.ones 6).
  rewrite Z.land_ones by lia. now rewrite Z.shiftr_div_pow2 by lia.
Qed.

(** The bytes of a quantum, from the value of its sextets. *)
Lemma quantumBytes_val (dbuf : list Z) :
  (forall i, 0 <= nth i dbuf 0 < 64) ->
  let val := nth 0 dbuf 0 * 262144 + nth 1 dbuf 0 * 4096
             + nth 2 dbuf 0 * 64 + nth 3 dbuf 0 in
  quantumBytes dbuf =
  firstn (length dbuf - 1)
    [byte_of_Z (val / 65536); byte_of_Z (val / 256); byte_of_Z val].
Proof.
  intros Hd val. unfold quantumBytes.
  rewrite val_of_sextets by apply Hd. fold val.
  rewrite !Z.shiftr_div_pow2 by lia.
  change (2 ^ 16) with 65536. change (2 ^ 8) with 256. change (2 ^ 0) with 1.
  now rewrite Z.div_1_r.
Qed.

Lemma sextets_range (l : list Z) :
  Forall (fun d => 0 <= d < 64) l -> forall i, 0 <= nth i l 0 < 64.
Proof.
  intros H. induction H as [|d l Hd _ IH]; intros [|i]; simpl; auto; lia.
Qed.

(** What [Encode] makes of three bytes, [decodeQuantum] turns back
    into them. *)
Lemma quantumBytes_three (b0 b1 b2 : byte) :
  let val := Z.lor (Z.lor (Z.shiftl (byte_to_Z b0) 16)
                          (Z.shiftl (byte_to_Z b1) 8))
                   (byte_to_Z b2) in
  quantumBytes [Z.land (Z.shiftr val 18) 63; Z.land (Z.shiftr val 12) 63;
                Z.land (Z.shiftr val 6) 63; Z.land (Z.shiftr val 0) 63]
  = [b0; b1; b2].
Proof.
  intros val.
  pose proof (byte_to_Z_range b0) as H0. pose proof (byte_to_Z_range b1) as H1.
  pose proof (byte_to_Z_range b2) as H2.
  rewrite quantumBytes_val
    by (apply sextets_range; repeat constructor; apply land_63).
  cbn [nth length Nat.sub firstn]. rewrite !sextet_index by lia.
  subst val. rewrite val_of_bytes by assumption.
  change (2 ^ 18) with 262144. change (2 ^ 12) with 4096.
  change (2 ^ 6) with 64. change (2 ^ 0) with 1.
  f_equal; [|f_equal; [|f_equal]]; apply byte_of_Z_eq;
    Z.div_mod_to_equations; lia.
Qed.

(** The last quantum of an input with two bytes left. *)
Lemma quantumBytes_two (b0 b1 : byte) :
  let val := Z.lor (Z.shiftl (byte_to_Z b0) 16) (Z.shiftl (byte_to_Z b1) 8) in
  quantumBytes [Z.land (Z.shiftr val 18) 63; Z.land (Z.shiftr val 12) 63;
                Z.land (Z.shiftr val 6) 63]
  = [b0; b1].
Proof.
  intros val.
  pose proof (byte_to_Z_range b0) as H0. pose proof (byte_to_Z_range b1) as H1.
  rewrite quantumBytes_val
    by (apply sextets_range; repeat constructor; apply land_63).
  cbn [nth length Nat.sub firstn]. rewrite !sextet_index by lia.
  assert (E : val = byte_to_Z b0 * 65536 + byte_to_Z b1 * 256).
  { subst val. rewrite !Z.shiftl_mul_pow2 by lia.
    rewrite (lor_disjoint _ _ 16) by pow2_lia. pow2_lia. }
  rewrite E.
  change (2 ^ 18) with 262144. change (2 ^ 12) with 4096.
  change (2 ^ 6) with 64.
  f_equal; [|f_equal]; apply byte_of_Z_eq; Z.div_mod_to_equations; lia.
Qed.

(** The last quantum of an input with one byte left. *)
Lemma quantumBytes_one (b0 : byte) :
  let val := Z.shiftl (byte_to_Z b0) 16 in
  quantumBytes [Z.land (Z.shiftr val 18) 63; Z.land (Z.shiftr val 12) 63]
  = [b0].
Proof.
  intros val. pose proof (byte_to_Z_range b0) as H0.
  rewrite quantumBytes_val
    by (apply sextets_range; repeat constructor; apply land_63).
  cbn [nth length Nat.sub firstn]. rewrite !sextet_index by lia.
  subst val. rewrite Z.shiftl_mul_pow2 by lia.
  change (2 ^ 18) with 262144. change (2 ^ 12) with 4096.
  change (2 ^ 16) with 65536.
  f_equal. apply byte_of_Z_eq. Z.div_mod_to_equations. lia.
Qed.

Lemma decodeLoop_sextet (val k : Z) (rest : list byte) (si : Z)
      (dbuf : list Z) (out : list byte) :
  decodeLoop (sextet val k :: rest) si dbuf out =
  if (length (dbuf ++ [Z.land (Z.shiftr val k) 63]) =? 4)%nat
  then decodeLoop rest (si + 1) []
         (out ++ quantumBytes (dbuf ++ [Z.land (Z.shiftr val k) 63]))
  else decodeLoop rest (si + 1) (dbuf ++ [Z.land (Z.shiftr val k) 63]) out.
Proof.
  cbn [decodeLoop]. cbv zeta.
  now rewrite decodeMap_sextet_valid, decodeMap_sextet.
Qed.

Lemma decodeLoop_padChar (rest : list byte) (si : Z)
      (dbuf : list Z) (out : list byte) :
  decodeLoop (padChar :: rest) si dbuf out =
  (out ++ fst (decodePadding dbuf rest si), snd (decodePadding dbuf rest si)).
Proof.
  cbn [decodeLoop]. cbv zeta. change (decodeMap padChar) with 255.
  change (is_newline padChar) with false.
  change (Byte.eqb padChar padChar) with true. cbn [Z.eqb negb Pos.eqb].
  now destruct (decodePadding dbuf rest si).
Qed.

Lemma list_ind3 {A : Type} (P : list A -> Prop) :
  P [] -> (forall a, P [a]) -> (forall a b, P [a; b]) ->
  (forall a b c l, P l -> P (a :: b :: c :: l)) ->
  forall l, P l.
Proof.
  intros H0 H1 H2 H3. fix IH 1.
  intros [|a [|b [|c l]]];
    [apply H0 | apply H1 | apply H2 | apply H3, IH].
Qed.

(** Decoding what [Encode] produced gives the input back, after what
    was decoded before, and no error. *)
Lemma decodeLoop_Encode (src : list byte) :
  forall si out, decodeLoop (Encode src) si [] out = (out ++ src, None).
Proof.
  induction src as [| b0 | b0 b1 | b0 b1 b2 src IH] using list_ind3;
    intros si out.
  - simpl. now rewrite app_nil_r.
  - cbn [Encode]. cbv zeta.
    rewrite !decodeLoop_sextet. cbn [app length Nat.eqb].
    rewrite decodeLoop_padChar.
    unfold decodePadding. cbn [length skipNewlines].
    change (is_newline padChar) with false. cbv iota.
    change (Byte.eqb padChar padChar) with true. cbv iota.
    cbn [fst snd]. now rewrite quantumBytes_one.
  - cbn [Encode]. cbv zeta.
    rewrite !decodeLoop_sextet. cbn [app length Nat.eqb].
    rewrite decodeLoop_padChar.
    unfold decodePadding. cbn [length skipNewlines fst snd].
    now rewrite quantumBytes_two.
  - cbn [Encode]. cbv zeta.
    rewrite !decodeLoop_sextet. cbn [app length Nat.eqb].
    rewrite quantumBytes_three, IH. now rewrite <- app_assoc.
Qed.

Theorem DecodeString_Encode (src : list byte) :
  DecodeString (Encode src) = (src, None).
Proof. unfold DecodeString. now rewrite decodeLoop_Encode. Qed.

(** [EncodedLen]: four bytes for every three of the input, rounded
    up. *)
Lemma Encode_length (src : list byte) :
  len (Encode src) = 4 * ((len src + 2) / 3).
Proof.
  unfold len.
  induction src as [| b0 | b0 b1 | b0 b1 b2 src IH] using list_ind3.
  - reflexivity.
  - reflexivity.
  - reflexivity.
  - cbn [Encode]. cbv zeta. cbn [length].
    rewrite !Nat2Z.inj_succ, IH. Z.div_mod_to_equations. lia.
Qed.

(** The bytes that [Decode] writes are at most three for every four
    of the input, with or without an error. *)
Lemma decodeLoop_length (src : list byte) :
  forall si dbuf out,
  exists q,
    len (fst (decodeLoop src si dbuf out)) <= len out + 3 * q
    /\ 4 * q <= len dbuf + len src.
Proof.
  unfold len.
  induction src as [|c rest IH]; intros si dbuf out.
  - exists 0. destruct dbuf; cbn [decodeLoop fst length]; lia.
  - cbn [decodeLoop]. cbv zeta.
    destruct (negb (decodeMap c =? 255)).
    + destruct (length (dbuf ++ [decodeMap c]) =? 4)%nat eqn:E4.
      * apply Nat.eqb_eq in E4.
        destruct (IH (si + 1) [] (out ++ quantumBytes (dbuf ++ [decodeMap c])))
          as [q [Hq1 Hq2]].
        exists (q + 1). rewrite length_app in *. simpl length in *.
        assert (length (quantumBytes (dbuf ++ [decodeMap c])) <= 3)%nat.
        { unfold quantumBytes. rewrite length_firstn. simpl length. lia. }
        lia.
      * destruct (IH (si + 1) (dbuf ++ [decodeMap c]) out) as [q [Hq1 Hq2]].
        exists q. rewrite length_app in *. simpl length in *. lia.
    + destruct (is_newline c).
      * destruct (IH (si + 1) dbuf out) as [q [Hq1 Hq2]].
        exists q. simpl length. lia.
      * destruct (negb (Byte.eqb c padChar)).
        -- exists 0. cbn [fst length]. lia.
        -- assert (Hpad : exists q,
                     Z.of_nat (length (fst (decodePadding dbuf rest si))) <= 3 * q
                     /\ 4 * q <= Z.of_nat (length dbuf) + 1 + Z.of_nat (length rest)).
           { unfold decodePadding.
             assert (Hq : forall d, (length (quantumBytes d) <= length d - 1)%nat
                                    /\ (length (quantumBytes d) <= 3)%nat).
             { intros d. unfold quantumBytes. rewrite length_firstn.
               simpl length. lia. }
             assert (Hfin : forall r s,
                       fst (match skipNewlines r s with
                            | ([], _) => (quantumBytes dbuf, @None error)
                            | (_ :: _, si') =>
                                (quantumBytes dbuf, Some (CorruptInputError si'))
                            end) = quantumBytes dbuf).
             { intros r s. now destruct (skipNewlines r s) as [[|? ?] ?]. }
             destruct (Hq dbuf) as [Hq1 Hq2].
             destruct (length dbuf) as [|[|[|n]]] eqn:El.
             - exists 0. cbn [fst length]. lia.
             - exists 0. cbn [fst length]. lia.
             - assert (Hskip : forall r s,
                         (length (fst (skipNewlines r s)) <= length r)%nat).
               { induction r as [|x r IHr]; intros s; simpl; [lia|].
                 destruct (is_newline x); simpl; [|lia].
                 specialize (IHr (s + 1)). lia. }
               specialize (Hskip rest (si + 1)).
               destruct (skipNewlines rest (si + 1)) as [[|x r'] s'].
               + exists 0. cbn [fst length]. lia.
               + destruct (Byte.eqb x padChar).
                 * rewrite Hfin. exists 1. cbn [fst length] in Hskip. lia.
                 * exists 0. cbn [fst length]. lia.
             - rewrite Hfin. exists 1. lia. }
           destruct Hpad as [q [Hq1 Hq2]]. exists q.
           destruct (decodePadding dbuf rest si) as [last err].
           cbn [fst] in *. rewrite length_app. simpl length. lia.
Qed.

(** Splitting 24 bits into four sextets and putting them together
    again gives the three bytes back. *)
Lemma quantum_roundtrip (z0 z1 z2 : Z) :
  0 <= z0 < 256 -> 0 <= z1 < 256 -> 0 <= z2 < 256 ->
  let val := z0 * 65536 + z1 * 256 + z2 in
  let val' := (val / 262144) mod 64 * 262144 + (val / 4096) mod 64 * 4096
              + (val / 64) mod 64 * 64 + (val / 1) mod 64 in
  (val' / 65536) mod 256 = z0 /\ (val' / 256) mod 256 = z1
  /\ (val' / 1) mod 256 = z2.
Proof.
  intros H0 H1 H2 val val'.
  assert (E : val' = val) by (subst val val'; Z.div_mod_to_equations; lia).
  rewrite E. subst val. repeat split; Z.div_mod_to_equations; lia.
Qed.

End base64_facts.

(** ** Output messages *)

Lemma frontMessages_app (tr1 tr2 : list Event) :
  frontMessages (tr1 ++ tr2) = frontMessages tr1 ++ frontMessages tr2.
Proof.
  induction tr1 as [|[data | data | c r | s u m] tr1 IH]; simpl;
    now rewrite ?IH.
Qed.

Lemma wrap64_in_range (z : Z) : int_range z -> wrap64 z = z.
Proof. unfold int_range, wrap64. intros H. pow2_lia. Qed.

Section Output.

Context {MT : MessageTypes} {L : Libraries} {C : Conns}.

Lemma decodeOutput_Encode (data : list byte) :
  decodeOutput (Output :: base64.Encode data) = Some data.
Proof.
  unfold decodeOutput. rewrite byte_eqb_refl.
  now rewrite base64_facts.DecodeString_Encode.
Qed.

Lemma decodeOutputs_Encode (chunks : list (list byte)) :
  decodeOutputs (map (fun data => Output :: base64.Encode data) chunks)
  = Some (concat chunks).
Proof.
  induction chunks as [|data chunks IH]; [reflexivity|].
  cbn [map decodeOutputs concat]. now rewrite decodeOutput_Encode, IH.
Qed.

Lemma handleSlaveReadEvent_trace (tr : list Event) (data : list byte) :
  fst (handleSlaveReadEvent tr data)
  = tr ++ [MasterWrite (Output :: base64.Encode data)].
Proof.
  unfold handleSlaveReadEvent, masterWrite, wrapped, base64.EncodeToString.
  now destruct (masterConn_Write tr _).
Qed.

(** The error of [handleSlaveReadEvent] is a wrapped one, never
    [ErrSlaveClosed]. *)
Lemma handleSlaveReadEvent_error (tr : list Event) (data : list byte) :
  snd (handleSlaveReadEvent tr data) <> Some ErrSlaveClosed.
Proof.
  unfold handleSlaveReadEvent, masterWrite, wrapped.
  destruct (masterConn_Write tr _); discriminate.
Qed.

Lemma auditLogs_frontMessages (wt : WebTTY) (tr : list Event)
      (buffer : list byte) (fromFe : bool) :
  frontMessages (snd (auditLogs wt tr buffer fromFe)) = frontMessages tr.
Proof.
  unfold auditLogs, printAuditLogs.
  destruct (negb (auditEnabled wt)); [reflexivity|].
  destruct fromFe; cbv zeta;
    match goal with |- context [if ?b then _ else _] => destruct b end;
    cbn [snd]; rewrite ?frontMessages_app; cbn [frontMessages];
    now rewrite ?app_nil_r.
Qed.

(** The loop writes one Output message per chunk, in order, for the
    chunks up to the first write that fails, all of them when the
    loop ends because the slave is closed. *)
Lemma slaveLoop_messages (reads : list (list byte)) :
  forall wt tr,
  exists k,
    (k <= length reads)%nat
    /\ frontMessages (snd (fst (slaveLoop wt tr reads)))
       = frontMessages tr
         ++ map (fun data => Output :: base64.Encode data) (firstn k reads)
    /\ (snd (slaveLoop wt tr reads) = ErrSlaveClosed -> k = length reads).
Proof.
  induction reads as [|data reads IH]; intros wt tr.
  - exists 0%nat. cbn. rewrite app_nil_r. auto.
  - cbn [slaveLoop].
    pose proof (auditLogs_frontMessages wt tr data false) as Haudit.
    destruct (auditLogs wt tr data false) as [wt1 tr1]. cbn [snd] in Haudit.
    pose proof (handleSlaveReadEvent_trace tr1 data) as Htr.
    pose proof (handleSlaveReadEvent_error tr1 data) as Herr.
    destruct (handleSlaveReadEvent tr1 data) as [tr2 [err|]];
      cbn [fst snd] in Htr, Herr; subst tr2.
    + exists 1%nat. cbn [fst snd firstn map length].
      rewrite frontMessages_app, Haudit. cbn [frontMessages].
      split; [lia|]. split; [reflexivity|].
      intros ->. now contradiction Herr.
    + destruct (IH wt1 (tr1 ++ [MasterWrite (Output :: base64.Encode data)]))
        as (k & Hk & Hmsgs & Hall).
      exists (S k). cbn [firstn map length]. split; [lia|]. split.
      * rewrite Hmsgs, frontMessages_app, Haudit. cbn [frontMessages].
        now rewrite <- app_assoc.
      * intros H. now rewrite Hall.
Qed.

(** What [auditLogs] adds to the trace is for the logger only. *)
Lemma auditLogs_log_only (wt : WebTTY) (tr : list Event)
      (buffer : list byte) (fromFe : bool) :
  exists logs,
    snd (auditLogs wt tr buffer fromFe) = tr ++ logs
    /\ frontMessages logs = []
    /\ forall tr0, writes_succeeded tr0 logs.
Proof.
  unfold auditLogs, printAuditLogs.
  destruct (negb (auditEnabled wt));
    [exists []; cbn; rewrite app_nil_r; auto|].
  destruct fromFe; cbv zeta;
    match goal with |- context [if ?b then _ else _] => destruct b end;
    cbn [snd];
    first [ eexists [_]; split; [reflexivity|]; cbn; auto
          | exists []; cbn; rewrite app_nil_r; auto ].
Qed.

(** The loop, by the results of its writes to the master.  When each
    write it makes returns nil, it writes one Output message per chunk
    and ends because the slave is closed.  Otherwise it stops at the
    first write that fails, the chunks before it written and the rest
    not read, with the error of that write wrapped twice. *)
Lemma slaveLoop_outcome (reads : list (list byte)) :
  forall wt tr,
  exists new,
    snd (fst (slaveLoop wt tr reads)) = tr ++ new
    /\ ((writes_succeeded tr new
         /\ snd (slaveLoop wt tr reads) = ErrSlaveClosed
         /\ frontMessages new
            = map (fun data => Output :: base64.Encode data) reads)
        \/ (exists done data rest err before,
              reads = done ++ data :: rest
              /\ new = before ++ [MasterWrite (Output :: base64.Encode data)]
              /\ writes_succeeded tr before
              /\ masterConn_Write (tr ++ before) (Output :: base64.Encode data)
                 = Some err
              /\ snd (slaveLoop wt tr reads)
                 = Wrapf (Wrapf err "failed to write to master")
                         "failed to send message to master"
              /\ frontMessages before
                 = map (fun data => Output :: base64.Encode data) done)).
Proof.
  induction reads as [|data reads IH]; intros wt tr.
  - exists []. cbn. rewrite app_nil_r. auto.
  - cbn [slaveLoop].
    destruct (auditLogs_log_only wt tr data false) as (logs & Htr1 & Hlogs & Hok).
    destruct (auditLogs wt tr data false) as [wt1 tr1]. cbn [snd] in Htr1.
    subst tr1.
    unfold handleSlaveReadEvent, masterWrite, wrapped, base64.EncodeToString.
    destruct (masterConn_Write (tr ++ logs) (Output :: base64.Encode data))
      as [err|] eqn:Ew.
    + exists (logs ++ [MasterWrite (Output :: base64.Encode data)]).
      cbn [fst snd]. split; [now rewrite app_assoc|].
      right. exists [], data, reads, err, logs. cbn [app map].
      repeat split; auto.
    + destruct (IH wt1 ((tr ++ logs) ++ [MasterWrite (Output :: base64.Encode data)]))
        as (new & Htr' & Hcases).
      exists (logs ++ MasterWrite (Output :: base64.Encode data) :: new).
      split; [rewrite Htr', <- !app_assoc; reflexivity|].
      destruct Hcases
        as [(Hnew & Hend & Hmsgs)
           | (done & d & rest & err & before & -> & -> & Hbefore & Hfail & Hend & Hmsgs)].
      * left. split; [|split; [exact Hend|]].
        -- apply writes_succeeded_app. split; [apply Hok|].
           cbn [writes_succeeded]. auto.
        -- rewrite frontMessages_app, Hlogs. cbn [app frontMessages map].
           now rewrite Hmsgs.
      * right.
        exists (data :: done), d, rest, err,
               (logs ++ MasterWrite (Output :: base64.Encode data) :: before).
        split; [reflexivity|]. split; [now rewrite <- app_assoc|].
        split; [|split; [|split; [exact Hend|]]].
        -- apply writes_succeeded_app. split; [apply Hok|].
           cbn [writes_succeeded]. auto.
        -- rewrite <- Hfail. f_equal. rewrite <- !app_assoc. reflexivity.
        -- rewrite frontMessages_app, Hlogs. cbn [app frontMessages map].
           now rewrite Hmsgs.
Qed.

(** C3.  The message that [handleSlaveReadEvent] writes for the bytes
    read from the slave is the Output tag followed by their base64
    encoding, and stripping the tag and decoding gives the bytes
    back.  Over a sequence of reads, when every write the loop makes to
    the master returns nil, one message is written per chunk, the loop
    ends because the slave is closed, and the messages decode, in
    order, to the concatenation of all the chunks read, nothing lost
    and nothing twice; with a master whose writes never fail that is
    always so.  Otherwise the loop stops at the first write that
    fails: the messages are those of the chunks up to that one, they
    decode to the concatenation of these chunks, and the error of the
    write is returned, wrapped twice. *)
Theorem slave_output_decodes_to_input
        (wt : WebTTY) (tr : list Event) (reads : list (list byte)) :
  (forall data,
     fst (handleSlaveReadEvent tr data)
     = tr ++ [MasterWrite (Output :: base64.Encode data)]
     /\ base64.DecodeString (base64.Encode data) = (data, None)
     /\ decodeOutput (Output :: base64.Encode data) = Some data)
  /\ ((writes_succeeded [] (snd (fst (slaveLoop wt [] reads)))
       /\ snd (slaveLoop wt [] reads) = ErrSlaveClosed
       /\ frontMessages (snd (fst (slaveLoop wt [] reads)))
          = map (fun data => Output :: base64.Encode data) reads
       /\ decodeOutputs (frontMessages (snd (fst (slaveLoop wt [] reads))))
          = Some (concat reads))
      \/ (exists done data rest err before,
            reads = done ++ data :: rest
            /\ snd (fst (slaveLoop wt [] reads))
               = before ++ [MasterWrite (Output :: base64.Encode data)]
            /\ writes_succeeded [] before
            /\ masterConn_Write before (Output :: base64.Encode data) = Some err
            /\ snd (slaveLoop wt [] reads)
               = Wrapf (Wrapf err "failed to write to master")
                       "failed to send message to master"
            /\ frontMessages (snd (fst (slaveLoop wt [] reads)))
               = map (fun data => Output :: base64.Encode data) (done ++ [data])
            /\ decodeOutputs (frontMessages (snd (fst (slaveLoop wt [] reads))))
               = Some (concat (done ++ [data]))))
  /\ ((forall tr' msg, masterConn_Write tr' msg = None) ->
      snd (slaveLoop wt [] reads) = ErrSlaveClosed
      /\ frontMessages (snd (fst (slaveLoop wt [] reads)))
         = map (fun data => Output :: base64.Encode data) reads
      /\ decodeOutputs (frontMessages (snd (fst (slaveLoop wt [] reads))))
         = Some (concat reads)).
Proof.
  split.
  { intros data. split; [apply handleSlaveReadEvent_trace|].
    split; [apply base64_facts.DecodeString_Encode | apply decodeOutput_Encode]. }
  destruct (slaveLoop_outcome reads wt []) as (new & Htr & Hcases).
  cbn [app] in Htr. rewrite Htr.
  destruct Hcases
    as [(Hnew & Hend & Hmsgs)
       | (done & d & rest & err & before & Hreads & Hnew & Hbefore & Hfail & Hend & Hmsgs)];
    cbn [app] in *.
  - assert (Hall : snd (slaveLoop wt [] reads) = ErrSlaveClosed
                   /\ frontMessages new
                      = map (fun data => Output :: base64.Encode data) reads
                   /\ decodeOutputs (frontMessages new) = Some (concat reads))
      by (rewrite Hmsgs, decodeOutputs_Encode; auto).
    split; [left; tauto | intros _; exact Hall].
  - assert (Hmsgs' : frontMessages new
                     = map (fun data => Output :: base64.Encode data) (done ++ [d])).
    { rewrite Hnew, frontMessages_app, Hmsgs, map_app. reflexivity. }
    split.
    + right. exists done, d, rest, err, before.
      rewrite Hmsgs', decodeOutputs_Encode. repeat split; auto.
    + intros Hnever. rewrite Hnever in Hfail. discriminate Hfail.
Qed.

Lemma maxChunkSize_positive_buffer (wt : WebTTY) :
  1 <= bufferSize wt -> int_range (bufferSize wt) ->
  maxChunkSize wt = (bufferSize wt - 1) / 4 * 3.
Proof.
  unfold maxChunkSize, int_range. intros H1 Hr. cbv zeta.
  rewrite (wrap64_in_range (bufferSize wt - 1)) by (unfold int_range; lia).
  rewrite Z.quot_div_nonneg by lia.
  apply wrap64_in_range. unfold int_range. pow2_lia.
Qed.

(** C4, as the code has it.  For a buffer size of at least 1 and a
    read of at most [maxChunkSize] bytes, the Output message written
    for it, one tag byte and the encoding of [4 * ceil(n / 3)] bytes
    of the [n] bytes read, is no longer than the buffer size. *)
Theorem output_message_fits_buffer
        (wt : WebTTY) (tr : list Event) (data : list byte) :
  1 <= bufferSize wt -> int_range (bufferSize wt) ->
  len data <= maxChunkSize wt ->
  maxChunkSize wt = (bufferSize wt - 1) / 4 * 3
  /\ fst (handleSlaveReadEvent tr data)
     = tr ++ [MasterWrite (Output :: base64.Encode data)]
  /\ len (Output :: base64.Encode data) = 1 + 4 * ((len data + 2) / 3)
  /\ len (Output :: base64.Encode data) <= bufferSize wt.
Proof.
  intros H1 Hr Hn.
  pose proof (maxChunkSize_positive_buffer wt H1 Hr) as Hmax.
  rewrite Hmax in Hn.
  assert (Hlen : len (Output :: base64.Encode data)
                 = 1 + 4 * ((len data + 2) / 3)).
  { pose proof (base64_facts.Encode_length data) as He.
    unfold len in *. cbn [length]. rewrite Nat2Z.inj_succ. lia. }
  repeat split; [exact Hmax | apply handleSlaveReadEvent_trace | exact Hlen |].
  rewrite Hlen. unfold len in *. Z.div_mod_to_equations. lia.
Qed.

End Output.

Lemma slave_output_decodes_to_input_witness :
  decodeOutputs
    (frontMessages
       (snd (fst (@slaveLoop gotty_types plain_libraries reliable audited []
                    [bytes "total 0"; [CR]; bytes "$ "]))))
  = Some (concat [bytes "total 0"; [CR]; bytes "$ "]).
Proof.
  apply (@slave_output_decodes_to_input gotty_types plain_libraries reliable
           audited [] [bytes "total 0"; [CR]; bytes "$ "]).
  intros tr' msg. reflexivity.
Defined.

Lemma output_message_fits_buffer_witness :
  len (Output :: base64.Encode (bytes "total 0")) <= bufferSize New.
Proof.
  apply (@output_message_fits_buffer gotty_types reliable New []
           (bytes "total 0")); vm_compute; intuition discriminate.
Defined.

(** C4 as the specification words it fails: with a buffer size of 0
    the chunk size is 0, and the message for a read of no bytes, the
    tag alone, is longer than the buffer size. *)
Lemma output_message_zero_buffer_counterexample :
  ~ (len (@nil byte) <= @maxChunkSize zero_buffer ->
     len (@Output gotty_types :: base64.Encode []) <= bufferSize zero_buffer).
Proof.
  intros H. assert (H0 : len (@nil byte) <= maxChunkSize zero_buffer)
    by (vm_compute; discriminate).
  specialize (H H0). vm_compute in H. apply H. reflexivity.
Qed.

(** ** The buffer of decoded input *)

Lemma copy_length (dst src : list byte) :
  (length src <= length dst)%nat -> length (copy dst src) = length dst.
Proof.
  intros H. unfold copy. rewrite length_app, length_firstn, length_skipn. lia.
Qed.

(** [base64.StdEncoding] writes at most three bytes for every four of
    its input, whether it fails or not. *)
Lemma DecodeString_length (src : list byte) :
  len (fst (base64.DecodeString src)) <= 3 * (len src / 4).
Proof.
  unfold base64.DecodeString.
  destruct (base64_facts.decodeLoop_length src 0 [] []) as [q [H1 H2]].
  unfold len in *. cbn [length] in *. Z.div_mod_to_equations. lia.
Qed.

Section DecodedBuffer.

Context {MT : MessageTypes} {L : Libraries} {C : Conns}.

Lemma slice_to_in_range (s : list byte) (n : Z) :
  0 <= n <= len s -> slice_to s n = Some (firstn (Z.to_nat n) s).
Proof.
  intros [H0 H1]. unfold slice_to.
  apply Z.leb_le in H0, H1. now rewrite H0, H1.
Qed.

(** After the decoder is done, the handler ends with a return. *)
Lemma input_written_or_rejected (wt : WebTTY) (tr : list Event)
      (decoded : list byte) :
  (let '(wt, tr) := auditLogs wt tr decoded true in
   match slave_Write tr decoded with
   | Some err =>
       (wt, tr ++ [SlaveWrite decoded],
        Return (Some (Wrapf err "failed to write received data to slave")))
   | None => (wt, tr ++ [SlaveWrite decoded], Return None)
   end) = (fst (auditLogs wt tr decoded true),
           snd (auditLogs wt tr decoded true) ++ [SlaveWrite decoded],
           Return (match slave_Write (snd (auditLogs wt tr decoded true)) decoded with
                   | Some err =>
                       Some (Wrapf err "failed to write received data to slave")
                   | None => None
                   end)).
Proof.
  destruct (auditLogs wt tr decoded true) as [wt' tr']. cbn [fst snd].
  now destruct (slave_Write tr' decoded).
Qed.

(** C10.  For an Input message of length [L >= 2], in a buffer of
    [L] bytes, the identity codec returns the count [L - 1] and the
    base64 codec a count of at most [3 * ((L - 1) / 4)], both at most
    [L] and neither writing past the end of the buffer; so with
    either of them as the decoder the handler takes
    [decodedBuffer[:n]] in range and does not panic. *)
Theorem decoded_count_fits_buffer (payload : list byte) :
  payload <> [] ->
  let L := len (Input :: payload) in
  let decodedBuffer := repeat x00 (length (Input :: payload)) in
  (exists dst,
     Decode NullCodec decodedBuffer payload = DecodeRet dst (L - 1) None
     /\ len dst = L /\ L - 1 <= L)
  /\ (exists dst n err,
        Decode base64_StdEncoding decodedBuffer payload = DecodeRet dst n err
        /\ len dst = L /\ 0 <= n <= 3 * ((L - 1) / 4) /\ n <= L)
  /\ (forall wt tr,
        decoder wt = NullCodec \/ decoder wt = base64_StdEncoding ->
        snd (handleMasterReadEvent wt tr (Input :: payload)) <> Panic).
Proof.
  intros Hne L0 decodedBuffer.
  assert (HL : L0 = len payload + 1)
    by (unfold L0, len; cbn [length]; lia).
  assert (Hbuf : len decodedBuffer = L0)
    by (unfold decodedBuffer, L0, len; now rewrite repeat_length).
  assert (Hpos : 0 <= len payload) by (unfold len; lia).
  (* the identity codec *)
  assert (Hnull : exists dst,
             Decode NullCodec decodedBuffer payload = DecodeRet dst (L0 - 1) None
             /\ len dst = L0 /\ L0 - 1 <= L0).
  { exists (copy decodedBuffer payload). cbn [Decode NullCodec].
    split; [f_equal; lia|]. split; [|lia].
    unfold len in *. rewrite copy_length; [exact Hbuf | lia]. }
  (* the base64 codec *)
  assert (Hb64 : exists dst n err,
             Decode base64_StdEncoding decodedBuffer payload = DecodeRet dst n err
             /\ len dst = L0 /\ 0 <= n <= 3 * ((L0 - 1) / 4) /\ n <= L0).
  { pose proof (DecodeString_length payload) as Hlen.
    cbn [Decode base64_StdEncoding].
    destruct (base64.DecodeString payload) as [out err]. cbn [fst] in Hlen.
    assert (Hout : len out <= len payload)
      by (unfold len in *; Z.div_mod_to_equations; lia).
    replace (length out <=? length decodedBuffer)%nat with true
      by (symmetry; apply Nat.leb_le; unfold len in *; lia).
    exists (out ++ skipn (length out) decodedBuffer), (len out), err.
    split; [reflexivity|]. split.
    - unfold len in *. rewrite length_app, length_skipn. lia.
    - replace (L0 - 1) with (len payload) by lia.
      unfold len in *. lia. }
  split; [exact Hnull|]. split; [exact Hb64|].
  intros wt tr Hdec. switch_on_tag.
  destruct (negb (permitWrite wt)); [discriminate|].
  destruct (len (Input :: payload) <=? 1); [discriminate|].
  fold decodedBuffer.
  destruct Hdec as [-> | ->].
  - destruct Hnull as (dst & -> & Hdst & _).
    rewrite slice_to_in_range by lia.
    rewrite input_written_or_rejected. discriminate.
  - destruct Hb64 as (dst & n & err & -> & Hdst & Hn & HnL).
    destruct err as [err|]; [discriminate|].
    rewrite slice_to_in_range by lia.
    rewrite input_written_or_rejected. discriminate.
Qed.

End DecodedBuffer.

Lemma decoded_count_fits_buffer_witness :
  snd (@handleMasterReadEvent gotty_types plain_libraries reliable
         (set_decoder audited base64_StdEncoding) []
         (Input :: bytes "bHMgLWw=")) <> Panic.
Proof.
  apply (@decoded_count_fits_buffer gotty_types plain_libraries reliable
           (bytes "bHMgLWw=")); [discriminate | right; reflexivity].
Defined.

(** The Input message "bHMgLWw=" under the base64 codec writes "ls -l"
    to the slave. *)
Example input_base64_ls :
  snd (fst (@handleMasterReadEvent gotty_types plain_libraries reliable
              (set_decoder fixed_80x24 base64_StdEncoding) []
              (Input :: bytes "bHMgLWw=")))
  = [SlaveWrite (bytes "ls -l")].
Proof. reflexivity. Qed.

(** * More of the bridge *)

(** ** What one call of the audit sink logs *)

Lemma same_settings_refl (wt : WebTTY) : same_settings wt wt.
Proof. unfold same_settings. repeat split. Qed.

Lemma slaveWrites_app (tr1 tr2 : list Event) :
  slaveWrites (tr1 ++ tr2) = slaveWrites tr1 ++ slaveWrites tr2.
Proof.
  induction tr1 as [|[data | data | c r | s u m] tr1 IH]; simpl;
    now rewrite ?IH.
Qed.

Lemma resizeCalls_app (tr1 tr2 : list Event) :
  resizeCalls (tr1 ++ tr2) = resizeCalls tr1 ++ resizeCalls tr2.
Proof.
  induction tr1 as [|[data | data | c r | s u m] tr1 IH]; simpl;
    now rewrite ?IH.
Qed.

Section AuditSink.

Context {L : Libraries}.

(** [auditLogs] touches the accumulators and nothing else of the
    bridge. *)
Lemma auditLogs_settings (wt : WebTTY) (tr : list Event)
      (buffer : list byte) (fromFe : bool) :
  same_settings wt (fst (auditLogs wt tr buffer fromFe))
  /\ decoder (fst (auditLogs wt tr buffer fromFe)) = decoder wt.
Proof.
  unfold auditLogs.
  destruct (negb (auditEnabled wt)); [split; [apply same_settings_refl | reflexivity]|].
  destruct fromFe; cbv zeta;
    match goal with |- context [if ?b then _ else _] => destruct b end;
    cbn [fst]; unfold same_settings; cbn; repeat split.
Qed.

(** X1.  One call of [auditLogs] logs one entry when auditing is
    enabled and the accumulator with the stripped input holds a
    carriage return, and nothing otherwise.  The entry is for the
    direction of the call, carries the user name when it is not empty,
    and its message is made of all the bytes before the last carriage
    return, earlier carriage returns included; the bytes after it,
    which hold none, are retained. *)
Theorem auditLogs_logs_through_last_CR
        (wt : WebTTY) (tr : list Event) (buffer : list byte) (fromFe : bool) :
  let full := accumulator fromFe wt ++ ansi_Strip buffer in
  let wt' := fst (auditLogs wt tr buffer fromFe) in
  let tr' := snd (auditLogs wt tr buffer fromFe) in
  (auditEnabled wt = true /\ In CR full ->
   exists line,
     full = line ++ CR :: accumulator fromFe wt'
     /\ ~ In CR (accumulator fromFe wt')
     /\ tr' = tr ++ [LogInfo (if fromFe then "browser" else "backend")
                       (if String.eqb (username wt) "" then None
                        else Some (username wt))
                       (RemoveNonGraphicChar line)])
  /\ (~ (auditEnabled wt = true /\ In CR full) -> tr' = tr).
Proof.
  intros full wt' tr'. subst full wt' tr'.
  destruct (auditEnabled wt) eqn:Hen.
  - destruct (auditLogs_enabled wt tr buffer fromFe Hen)
      as (_ & Hno & [[Hgrow Htr] | [line [Hflush Htr]]]).
    + split.
      * intros [_ Hin]. exfalso. apply Hno. now rewrite Hgrow.
      * intros _. exact Htr.
    + split.
      * intros _. exists line. split; [exact Hflush|]. split; [exact Hno|].
        rewrite Htr. unfold printAuditLogs. now destruct fromFe.
      * intros H. exfalso. apply H. split; [reflexivity|].
        rewrite Hflush. apply in_or_app. right. now left.
  - rewrite auditLogs_disabled by assumption. split.
    + intros [H _]. discriminate H.
    + reflexivity.
Qed.

End AuditSink.

Lemma auditLogs_logs_through_last_CR_witness :
  exists line,
    accumulator false audited ++ @ansi_Strip plain_libraries (bytes "a" ++ CR :: bytes "b" ++ CR :: bytes "c")
    = line ++ CR :: accumulator false
        (fst (@auditLogs plain_libraries audited []
                (bytes "a" ++ CR :: bytes "b" ++ CR :: bytes "c") false))
    /\ ~ In CR (accumulator false
                  (fst (@auditLogs plain_libraries audited []
                          (bytes "a" ++ CR :: bytes "b" ++ CR :: bytes "c") false)))
    /\ snd (@auditLogs plain_libraries audited []
              (bytes "a" ++ CR :: bytes "b" ++ CR :: bytes "c") false)
       = [] ++ [LogInfo "backend" None (@RemoveNonGraphicChar plain_libraries line)].
Proof.
  apply (@auditLogs_logs_through_last_CR plain_libraries audited []
           (bytes "a" ++ CR :: bytes "b" ++ CR :: bytes "c") false).
  split; [reflexivity|]. vm_compute. auto.
Defined.

(** ** The handler of the messages of the master *)

(** Go through the cases of the [switch] on the tag of a message. *)
Ltac switch_cases tag :=
  destruct (Byte.eqb tag Input) eqn:EInput;
  [ apply Byte.byte_dec_bl in EInput
  | destruct (Byte.eqb tag Ping) eqn:EPing;
    [ apply Byte.byte_dec_bl in EPing
    | destruct (Byte.eqb tag SetEncoding) eqn:EEnc;
      [ apply Byte.byte_dec_bl in EEnc
      | destruct (Byte.eqb tag ResizeTerminal) eqn:ERes;
        [ apply Byte.byte_dec_bl in ERes | ] ] ] ].

Section MasterHandler.

Context {MT : MessageTypes} {L : Libraries} {C : Conns}.

Lemma auditLogs_appends (wt : WebTTY) (tr : list Event)
      (buffer : list byte) (fromFe : bool) :
  snd (auditLogs wt tr buffer fromFe) = tr
  \/ exists stream user msg,
       snd (auditLogs wt tr buffer fromFe) = tr ++ [LogInfo stream user msg].
Proof.
  unfold auditLogs, printAuditLogs.
  destruct (negb (auditEnabled wt)); [now left|].
  destruct fromFe; cbv zeta;
    match goal with |- context [if ?b then _ else _] => destruct b end;
    cbn [snd]; eauto.
Qed.

Lemma auditLogs_slaveWrites (wt : WebTTY) (tr : list Event)
      (buffer : list byte) (fromFe : bool) :
  slaveWrites (snd (auditLogs wt tr buffer fromFe)) = slaveWrites tr
  /\ resizeCalls (snd (auditLogs wt tr buffer fromFe)) = resizeCalls tr.
Proof.
  destruct (auditLogs_appends wt tr buffer fromFe) as [-> | (s & u & m & ->)].
  - auto.
  - rewrite slaveWrites_app, resizeCalls_app. cbn. now rewrite !app_nil_r.
Qed.

Lemma auditLogs_other_accumulator (wt : WebTTY) (tr : list Event)
      (buffer : list byte) (fromFe : bool) :
  accumulator (negb fromFe) (fst (auditLogs wt tr buffer fromFe))
  = accumulator (negb fromFe) wt.
Proof.
  destruct (auditEnabled wt) eqn:Hen.
  - now destruct (auditLogs_enabled wt tr buffer fromFe Hen) as (H & _).
  - now rewrite auditLogs_disabled.
Qed.

(** The Input case once writes are permitted and the payload is not
    empty, by what the decoder returns. *)
Lemma input_permitted (wt : WebTTY) (tr : list Event) (payload : list byte) :
  permitWrite wt = true -> payload <> [] ->
  handleMasterReadEvent wt tr (Input :: payload) =
  match Decode (decoder wt) (repeat x00 (length (Input :: payload))) payload with
  | DecodePanic => (wt, tr, Panic)
  | DecodeRet _ _ (Some err) =>
      (wt, tr, Return (Some (Wrapf err "failed to decode received data")))
  | DecodeRet decodedBuffer n None =>
      match slice_to decodedBuffer n with
      | None => (wt, tr, Panic)
      | Some decoded =>
          (fst (auditLogs wt tr decoded true),
           snd (auditLogs wt tr decoded true) ++ [SlaveWrite decoded],
           Return (match slave_Write (snd (auditLogs wt tr decoded true)) decoded with
                   | Some err =>
                       Some (Wrapf err "failed to write received data to slave")
                   | None => None
                   end))
      end
  end.
Proof.
  intros Hw Hne. switch_on_tag. rewrite Hw. cbn [negb].
  replace (len (Input :: payload) <=? 1) with false
    by (symmetry; apply Z.leb_gt; destruct payload;
        [contradiction | unfold len; cbn [length]; lia]).
  destruct (Decode (decoder wt) _ payload) as [|buf n [err|]]; try reflexivity.
  destruct (slice_to buf n) as [decoded|]; [|reflexivity].
  apply input_written_or_rejected.
Qed.

(** X2.  A Ping message is answered with one Pong written to the
    master, whatever follows the tag; the handler returns nil when the
    write succeeds and the error of the write, wrapped twice, when it
    fails, and the bridge is as it was.  No other message makes the
    handler write to the master. *)
Theorem pong_only_answers_ping
        (wt : WebTTY) (tr : list Event) (data : list byte) :
  (forall payload, data = Ping :: payload ->
     handleMasterReadEvent wt tr data =
     (wt, tr ++ [MasterWrite [Pong]],
      Return (match masterConn_Write tr [Pong] with
              | Some err =>
                  Some (Wrapf (Wrapf err "failed to write to master")
                              "failed to return Pong message to master")
              | None => None
              end)))
  /\ ((forall payload, data <> Ping :: payload) ->
      frontMessages (snd (fst (handleMasterReadEvent wt tr data)))
      = frontMessages tr).
Proof.
  split.
  - intros payload ->. switch_on_tag. unfold masterWrite.
    now destruct (masterConn_Write tr [Pong]).
  - intros Hnot. destruct data as [|tag payload]; [reflexivity|].
    unfold handleMasterReadEvent. switch_cases tag.
    + destruct (negb (permitWrite wt)); [reflexivity|].
      destruct (len (tag :: payload) <=? 1); [reflexivity|].
      destruct (Decode (decoder wt) _ payload) as [|buf n [err|]];
        try reflexivity.
      destruct (slice_to buf n) as [decoded|]; [|reflexivity].
      rewrite input_written_or_rejected. cbn [fst snd].
      rewrite frontMessages_app, auditLogs_frontMessages. cbn.
      now rewrite app_nil_r.
    + subst tag. now contradiction (Hnot payload).
    + destruct (bytes_eqb payload (bytes "base64")); [reflexivity|].
      destruct (bytes_eqb payload (bytes "null")); reflexivity.
    + destruct (negb (columns wt =? 0) && negb (rows wt =? 0)); [reflexivity|].
      destruct (len (tag :: payload) <=? 1); [reflexivity|].
      destruct (json_Unmarshal payload) as [err | [ac ar]]; [reflexivity|].
      cbn [fst snd]. rewrite frontMessages_app. cbn. now rewrite app_nil_r.
    + reflexivity.
Qed.

(** X3.  A message whose tag is none of Input, Ping, SetEncoding and
    ResizeTerminal is rejected with the unknown-message-type error that
    holds its tag, with no effect on the bridge or on the connections;
    and the handler returns that error for no other message. *)
Theorem unknown_type_rejected_iff
        (wt : WebTTY) (tr : list Event) (tag : byte) (payload : list byte) :
  (~ known_type tag ->
   handleMasterReadEvent wt tr (tag :: payload)
   = (wt, tr, Return (Some (ErrUnknownMessageType tag))))
  /\ (forall c,
        snd (handleMasterReadEvent wt tr (tag :: payload))
        = Return (Some (ErrUnknownMessageType c)) ->
        ~ known_type tag /\ c = tag).
Proof.
  unfold known_type. split.
  - intros Hun. unfold handleMasterReadEvent.
    rewrite !byte_eqb_neq by tauto. reflexivity.
  - intros c. unfold handleMasterReadEvent. switch_cases tag.
    + destruct (negb (permitWrite wt)); [discriminate|].
      destruct (len (tag :: payload) <=? 1); [discriminate|].
      destruct (Decode (decoder wt) _ payload) as [|buf n [err|]];
        try discriminate.
      destruct (slice_to buf n) as [decoded|]; [|discriminate].
      rewrite input_written_or_rejected. cbn [snd].
      destruct (slave_Write _ decoded); discriminate.
    + unfold masterWrite. destruct (masterConn_Write tr [Pong]); discriminate.
    + destruct (bytes_eqb payload (bytes "base64")); [discriminate|].
      destruct (bytes_eqb payload (bytes "null")); discriminate.
    + destruct (negb (columns wt =? 0) && negb (rows wt =? 0)); [discriminate|].
      destruct (len (tag :: payload) <=? 1); [discriminate|].
      destruct (json_Unmarshal payload) as [err | [ac ar]]; discriminate.
    + cbn [snd]. intros [= <-]. split; [|reflexivity].
      apply Byte.eqb_false in EInput, EPing, EEnc, ERes. tauto.
Qed.

(** X4.  Whatever the message, the handler leaves the settings of the
    bridge and the accumulator of the slave's direction as they were;
    the decoder changes on a set-encoding message only, and the
    accumulator of the master's direction on an Input message of a
    bridge that permits writes and audits only. *)
Theorem handler_keeps_settings
        (wt : WebTTY) (tr : list Event) (data : list byte) :
  let wt' := fst (fst (handleMasterReadEvent wt tr data)) in
  same_settings wt wt'
  /\ beBuffer wt' = beBuffer wt
  /\ (decoder wt' = decoder wt \/ exists payload, data = SetEncoding :: payload)
  /\ (feBuffer wt' = feBuffer wt
      \/ ((exists payload, data = Input :: payload)
          /\ permitWrite wt = true /\ auditEnabled wt = true)).
Proof.
  cbv zeta.
  assert (Hsame : same_settings wt wt /\ beBuffer wt = beBuffer wt
                  /\ (decoder wt = decoder wt
                      \/ exists payload, data = SetEncoding :: payload)
                  /\ (feBuffer wt = feBuffer wt
                      \/ ((exists payload, data = Input :: payload)
                          /\ permitWrite wt = true /\ auditEnabled wt = true)))
    by (split; [apply same_settings_refl | auto]).
  destruct data as [|tag payload]; [exact Hsame|].
  unfold handleMasterReadEvent. switch_cases tag.
  - destruct (permitWrite wt) eqn:Hw; [|exact Hsame]. cbn [negb].
    destruct (len (tag :: payload) <=? 1); [exact Hsame|].
    destruct (Decode (decoder wt) _ payload) as [|buf n [err|]];
      try exact Hsame.
    destruct (slice_to buf n) as [decoded|]; [|exact Hsame].
    rewrite input_written_or_rejected. cbn [fst].
    destruct (auditLogs_settings wt tr decoded true) as [Hset Hdec].
    pose proof (auditLogs_other_accumulator wt tr decoded true) as Hbe.
    cbn [negb accumulator] in Hbe.
    split; [exact Hset|]. split; [exact Hbe|]. split; [now left|].
    destruct (auditEnabled wt) eqn:Hen.
    + right. subst tag. eauto.
    + left. now rewrite auditLogs_disabled.
  - unfold masterWrite. destruct (masterConn_Write tr [Pong]); exact Hsame.
  - subst tag.
    destruct (bytes_eqb payload (bytes "base64"));
      [|destruct (bytes_eqb payload (bytes "null"))];
      cbn [fst]; try exact Hsame;
      (split; [unfold same_settings; cbn; repeat split|]);
      (split; [reflexivity|]); (split; [right; eauto | now left]).
  - destruct (negb (columns wt =? 0) && negb (rows wt =? 0)); [exact Hsame|].
    destruct (len (tag :: payload) <=? 1); [exact Hsame|].
    destruct (json_Unmarshal payload) as [err | [ac ar]]; exact Hsame.
  - exact Hsame.
Qed.

End MasterHandler.

Lemma unknown_type_rejected_iff_witness :
  @handleMasterReadEvent gotty_types plain_libraries reliable
    fixed_80x24 [] ("9"%byte :: bytes "hello")
  = (fixed_80x24, [], Return (Some (ErrUnknownMessageType "9"%byte))).
Proof.
  apply (@unknown_type_rejected_iff gotty_types plain_libraries reliable
           fixed_80x24 [] "9"%byte (bytes "hello")).
  unfold known_type. simpl. intuition discriminate.
Defined.

Lemma pong_only_answers_ping_witness :
  @handleMasterReadEvent gotty_types plain_libraries (master_fails_at 0)
    New [] (Ping :: bytes "x")
  = (New, [] ++ [MasterWrite [Pong]],
     Return (Some (Wrapf (Wrapf (ConnError "broken pipe") "failed to write to master")
                         "failed to return Pong message to master")))
  /\ frontMessages
       (snd (fst (@handleMasterReadEvent gotty_types plain_libraries reliable
                    writable_base64 [] (Input :: bytes "bHM="))))
     = frontMessages [].
Proof.
  split.
  - exact (proj1 (@pong_only_answers_ping gotty_types plain_libraries
                    (master_fails_at 0) New [] (Ping :: bytes "x"))
                 (bytes "x") eq_refl).
  - apply (@pong_only_answers_ping gotty_types plain_libraries reliable
             writable_base64 [] (Input :: bytes "bHM=")).
    intros payload. discriminate.
Defined.

(** ** Input messages that are written to the slave *)

Lemma Encode_longer (data : list byte) :
  (length data <= length (base64.Encode data))%nat.
Proof.
  pose proof (base64_facts.Encode_length data) as H. unfold len in H.
  apply Nat2Z.inj_le. rewrite H. Z.div_mod_to_equations. lia.
Qed.



(** In the buffer of the handler, the base64 codec decodes what
    [Encode] produced: the bytes are at the front of the buffer and the
    count is their number. *)
Lemma Decode_base64_Encode (tag : byte) (data : list byte) :
  exists buf,
    Decode base64_StdEncoding
      (repeat x00 (length (tag :: base64.Encode data))) (base64.Encode data)
    = DecodeRet buf (len data) None
    /\ slice_to buf (len data) = Some data.
Proof.
  cbn [Decode base64_StdEncoding].
  rewrite base64_facts.DecodeString_Encode.
  replace (length data <=? length (repeat x00 (length (tag :: base64.Encode data))))%nat
    with true
    by (symmetry; apply Nat.leb_le; rewrite repeat_length; cbn [length];
        pose proof (Encode_longer data); lia).
  eexists. split; [reflexivity|].
  rewrite slice_to_in_range.
  - unfold len. rewrite Nat2Z.id.
    rewrite firstn_app, firstn_all, Nat.sub_diag. cbn [firstn].
    now rewrite app_nil_r.
  - unfold len. rewrite length_app. lia.
Qed.

Lemma Encode_not_empty (data : list byte) :
  data <> [] -> base64.Encode data <> [].
Proof.
  intros Hne. pose proof (Encode_longer data) as Hl.
  destruct data; [contradiction|].
  intros E. rewrite E in Hl. cbn [length] in Hl. lia.
Qed.

Section InputWritten.

Context {MT : MessageTypes} {L : Libraries} {C : Conns}.

(** X5.  With writes permitted and the identity codec, an Input
    message with a payload is written to the slave as it is: its
    payload goes through the audit sink of the master's direction and
    then, in one write, to the slave; the handler returns nil when the
    write succeeds and its error, wrapped, when it fails. *)
Theorem input_null_codec_writes_payload
        (wt : WebTTY) (tr : list Event) (payload : list byte) :
  permitWrite wt = true -> decoder wt = NullCodec -> payload <> [] ->
  handleMasterReadEvent wt tr (Input :: payload) =
  (fst (auditLogs wt tr payload true),
   snd (auditLogs wt tr payload true) ++ [SlaveWrite payload],
   Return (match slave_Write (snd (auditLogs wt tr payload true)) payload with
           | Some err => Some (Wrapf err "failed to write received data to slave")
           | None => None
           end)).
Proof.
  intros Hw Hdec Hne. rewrite input_permitted by assumption.
  rewrite Hdec. cbn [Decode NullCodec].
  assert (Hslice : slice_to (copy (repeat x00 (length (Input :: payload))) payload)
                            (len payload) = Some payload).
  { rewrite slice_to_in_range.
    - unfold len. rewrite Nat2Z.id. unfold copy.
      rewrite repeat_length. cbn [length].
      replace (firstn (S (length payload)) payload) with payload
        by (symmetry; apply firstn_all2; lia).
      rewrite firstn_app, firstn_all, Nat.sub_diag. cbn [firstn].
      now rewrite app_nil_r.
    - unfold len. rewrite copy_length; rewrite repeat_length; cbn [length]; lia. }
  now rewrite Hslice.
Qed.

(** X6.  With writes permitted and the base64 codec, an Input message
    that carries the base64 encoding of some bytes writes those bytes
    to the slave, in one write after the audit sink has seen them. *)
Theorem input_base64_writes_decoded
        (wt : WebTTY) (tr : list Event) (data : list byte) :
  permitWrite wt = true -> decoder wt = base64_StdEncoding -> data <> [] ->
  handleMasterReadEvent wt tr (Input :: base64.Encode data) =
  (fst (auditLogs wt tr data true),
   snd (auditLogs wt tr data true) ++ [SlaveWrite data],
   Return (match slave_Write (snd (auditLogs wt tr data true)) data with
           | Some err => Some (Wrapf err "failed to write received data to slave")
           | None => None
           end)).
Proof.
  intros Hw Hdec Hne.
  rewrite input_permitted by (try apply Encode_not_empty; assumption).
  rewrite Hdec.
  destruct (Decode_base64_Encode Input data) as (buf & -> & ->).
  reflexivity.
Qed.


(** X8.  A resize message that is taken (a dimension is left to the
    client, the payload is not empty and decodes) calls the slave's
    [ResizeTerminal] once and returns nil, whatever that call returns;
    a dimension that is fixed keeps its configured value, and one that
    is not takes the value of the payload. *)
Theorem resize_keeps_fixed_dimension
        (wt : WebTTY) (tr : list Event) (payload : list byte)
        (argColumns argRows : float64) :
  columns wt = 0 \/ rows wt = 0 -> payload <> [] ->
  json_Unmarshal payload = inr (argColumns, argRows) ->
  exists c r,
    handleMasterReadEvent wt tr (ResizeTerminal :: payload)
    = (wt, tr ++ [SlaveResizeTerminal c r], Return None)
    /\ (columns wt <> 0 -> c = columns wt)
    /\ (columns wt = 0 -> c = int_of_float64 argColumns)
    /\ (rows wt <> 0 -> r = rows wt)
    /\ (rows wt = 0 -> r = int_of_float64 argRows).
Proof.
  intros Hfree Hne Hjson. rewrite resize_not_both_fixed by assumption.
  destruct payload as [|b payload]; [contradiction|]. rewrite Hjson.
  eexists. eexists. split; [reflexivity|].
  destruct (Z.eqb_spec (columns wt) 0) as [Ec | Ec];
    destruct (Z.eqb_spec (rows wt) 0) as [Er | Er];
    repeat split; intros; try congruence; destruct Hfree; congruence.
Qed.

(** X9.  The handler calls the slave for the message types that are
    meant for it only: a message that is not an Input message writes
    nothing to the slave, a message that is not a resize message does
    not resize it, and no message does either more than once. *)
Theorem handler_slave_calls
        (wt : WebTTY) (tr : list Event) (data : list byte) :
  let tr' := snd (fst (handleMasterReadEvent wt tr data)) in
  ((forall payload, data <> Input :: payload) ->
   slaveWrites tr' = slaveWrites tr)
  /\ ((forall payload, data <> ResizeTerminal :: payload) ->
      resizeCalls tr' = resizeCalls tr)
  /\ (length (slaveWrites tr') <= length (slaveWrites tr) + 1)%nat
  /\ (length (resizeCalls tr') <= length (resizeCalls tr) + 1)%nat.
Proof.
  cbv zeta.
  assert (Hsame : ((forall payload, data <> Input :: payload) ->
                   slaveWrites tr = slaveWrites tr)
                  /\ ((forall payload, data <> ResizeTerminal :: payload) ->
                      resizeCalls tr = resizeCalls tr)
                  /\ (length (slaveWrites tr) <= length (slaveWrites tr) + 1)%nat
                  /\ (length (resizeCalls tr) <= length (resizeCalls tr) + 1)%nat)
    by (repeat split; lia).
  destruct data as [|tag payload]; [exact Hsame|].
  unfold handleMasterReadEvent. switch_cases tag.
  - destruct (negb (permitWrite wt)); [exact Hsame|].
    destruct (len (tag :: payload) <=? 1); [exact Hsame|].
    destruct (Decode (decoder wt) _ payload) as [|buf n [err|]];
      try exact Hsame.
    destruct (slice_to buf n) as [decoded|]; [|exact Hsame].
    rewrite input_written_or_rejected. cbn [fst snd].
    destruct (auditLogs_slaveWrites wt tr decoded true) as [Hsw Hrc].
    rewrite slaveWrites_app, resizeCalls_app, Hsw, Hrc. cbn.
    rewrite app_nil_r, length_app. cbn [length]. subst tag.
    repeat split; try lia. intros H. now contradiction (H payload).
  - unfold masterWrite. destruct (masterConn_Write tr [Pong]); cbn [fst snd];
      rewrite slaveWrites_app, resizeCalls_app; cbn; rewrite !app_nil_r;
      exact Hsame.
  - destruct (bytes_eqb payload (bytes "base64"));
      [|destruct (bytes_eqb payload (bytes "null"))]; exact Hsame.
  - destruct (negb (columns wt =? 0) && negb (rows wt =? 0)); [exact Hsame|].
    destruct (len (tag :: payload) <=? 1); [exact Hsame|].
    destruct (json_Unmarshal payload) as [err | [ac ar]]; [exact Hsame|].
    cbn [fst snd]. rewrite slaveWrites_app, resizeCalls_app. cbn.
    rewrite app_nil_r, length_app. cbn [length]. subst tag.
    repeat split; try lia. intros H. now contradiction (H payload).
  - exact Hsame.
Qed.

End InputWritten.

Lemma input_null_codec_writes_payload_witness :
  @handleMasterReadEvent gotty_types plain_libraries slave_closed
    fixed_80x24 [] (Input :: bytes "ls")
  = (fixed_80x24, [SlaveWrite (bytes "ls")],
     Return (Some (Wrapf (ConnError "input/output error")
                         "failed to write received data to slave"))).
Proof.
  apply (@input_null_codec_writes_payload gotty_types plain_libraries slave_closed
           fixed_80x24 [] (bytes "ls")); [reflexivity | reflexivity | discriminate].
Defined.

Lemma input_base64_writes_decoded_witness :
  @handleMasterReadEvent gotty_types plain_libraries reliable
    writable_base64 [] (Input :: base64.Encode (bytes "ls" ++ [CR]))
  = (fst (@auditLogs plain_libraries writable_base64 [] (bytes "ls" ++ [CR]) true),
     snd (@auditLogs plain_libraries writable_base64 [] (bytes "ls" ++ [CR]) true)
     ++ [SlaveWrite (bytes "ls" ++ [CR])],
     Return None).
Proof.
  apply (@input_base64_writes_decoded gotty_types plain_libraries reliable
           writable_base64 [] (bytes "ls" ++ [CR]));
    [reflexivity | reflexivity | discriminate].
Defined.


Lemma resize_keeps_fixed_dimension_witness :
  exists c r,
    @handleMasterReadEvent gotty_types plain_libraries reliable
      writable_base64 [] (ResizeTerminal :: bytes "xP")
    = (writable_base64, [] ++ [SlaveResizeTerminal c r], Return None)
    /\ (columns writable_base64 <> 0 -> c = columns writable_base64)
    /\ (columns writable_base64 = 0 -> c = 120)
    /\ (rows writable_base64 <> 0 -> r = rows writable_base64)
    /\ (rows writable_base64 = 0 -> r = 80).
Proof.
  apply (@resize_keeps_fixed_dimension gotty_types plain_libraries reliable
           writable_base64 [] (bytes "xP") 120 80);
    [left; reflexivity | discriminate | reflexivity].
Defined.

Lemma handler_slave_calls_witness :
  resizeCalls (snd (fst (@handleMasterReadEvent gotty_types plain_libraries reliable
                           writable_base64 [] (Input :: bytes "bHM="))))
  = resizeCalls [].
Proof.
  apply (@handler_slave_calls gotty_types plain_libraries reliable
           writable_base64 [] (Input :: bytes "bHM=")).
  intros payload. discriminate.
Defined.

(** ** The two loops *)


Section Loops.

Context {MT : MessageTypes} {L : Libraries} {C : Conns}.





(** The loop over Input messages that carry encoded chunks, the
    decoder being the base64 codec. *)
Lemma masterLoop_encoded_inputs (chunks : list (list byte)) :
  (forall tr data, slave_Write tr data = None) ->
  Forall (fun data => data <> []) chunks ->
  forall wt tr,
  permitWrite wt = true -> decoder wt = base64_StdEncoding ->
  snd (masterLoop wt tr (map (fun data => Input :: base64.Encode data) chunks))
  = Return (Some ErrMasterClosed)
  /\ slaveWrites
       (snd (fst (masterLoop wt tr
                    (map (fun data => Input :: base64.Encode data) chunks))))
     = slaveWrites tr ++ chunks.
Proof.
  intros Hslave Hne. induction Hne as [|data chunks Hd _ IH]; intros wt tr Hw Hdec.
  - cbn. now rewrite app_nil_r.
  - cbn [map masterLoop].
    rewrite input_permitted by (try apply Encode_not_empty; assumption).
    rewrite Hdec.
    destruct (Decode_base64_Encode Input data) as (buf & -> & ->).
    rewrite Hslave.
    destruct (auditLogs_settings wt tr data true) as [Hset Hdec'].
    destruct Hset as (_ & Hw' & _).
    destruct (IH (fst (auditLogs wt tr data true))
                 (snd (auditLogs wt tr data true) ++ [SlaveWrite data]))
      as [Hend Hwrites]; [congruence | congruence |].
    split; [exact Hend|]. rewrite Hwrites, slaveWrites_app.
    destruct (auditLogs_slaveWrites wt tr data true) as [-> _].
    cbn. now rewrite <- app_assoc.
Qed.

(** X11.  After a set-encoding message that selects base64, Input
    messages that carry the base64 encoding of non-empty chunks write
    exactly those chunks to the slave, in order: with writes permitted
    and a slave whose writes succeed, the loop handles all of them, and
    ends when the master is closed. *)
Theorem set_encoding_then_inputs_reach_slave
        (wt : WebTTY) (chunks : list (list byte)) :
  permitWrite wt = true ->
  (forall tr data, slave_Write tr data = None) ->
  Forall (fun data => data <> []) chunks ->
  let reads := (SetEncoding :: bytes "base64")
               :: map (fun data => Input :: base64.Encode data) chunks in
  snd (masterLoop wt [] reads) = Return (Some ErrMasterClosed)
  /\ slaveWrites (snd (fst (masterLoop wt [] reads))) = chunks.
Proof.
  intros Hw Hslave Hne. cbv zeta. cbn [masterLoop].
  replace (handleMasterReadEvent wt [] (SetEncoding :: bytes "base64"))
    with (set_decoder wt base64_StdEncoding, @nil Event, Return None)
    by (switch_on_tag; reflexivity).
  apply (masterLoop_encoded_inputs chunks Hslave Hne
           (set_decoder wt base64_StdEncoding) []); [exact Hw | reflexivity].
Qed.

(** X12.  The slave-to-master loop never writes to the slave and never
    resizes it, and leaves the settings, the decoder and the
    accumulator of the master's direction as they were.  It ends with
    [ErrSlaveClosed] when every write it made to the master returned
    nil, one message written per chunk; otherwise it ends right after
    the first write to the master that returned an error, the message
    of a chunk whose predecessors were written with writes that
    returned nil, with that error wrapped twice. *)
Theorem slaveLoop_leaves_slave_alone (reads : list (list byte)) :
  forall (wt : WebTTY) (tr : list Event),
  let wt' := fst (fst (slaveLoop wt tr reads)) in
  let tr' := snd (fst (slaveLoop wt tr reads)) in
  slaveWrites tr' = slaveWrites tr
  /\ resizeCalls tr' = resizeCalls tr
  /\ same_settings wt wt' /\ decoder wt' = decoder wt
  /\ feBuffer wt' = feBuffer wt
  /\ exists new,
       tr' = tr ++ new
       /\ ((snd (slaveLoop wt tr reads) = ErrSlaveClosed
            /\ writes_succeeded tr new
            /\ length (frontMessages new) = length reads)
           \/ (exists done data rest err before,
                 reads = done ++ data :: rest
                 /\ new = before ++ [MasterWrite (Output :: base64.Encode data)]
                 /\ length (frontMessages before) = length done
                 /\ writes_succeeded tr before
                 /\ masterConn_Write (tr ++ before) (Output :: base64.Encode data)
                    = Some err
                 /\ snd (slaveLoop wt tr reads)
                    = Wrapf (Wrapf err "failed to write to master")
                            "failed to send message to master")).
Proof.
  cbv zeta. intros wt tr.
  assert (Hframe : slaveWrites (snd (fst (slaveLoop wt tr reads))) = slaveWrites tr
                   /\ resizeCalls (snd (fst (slaveLoop wt tr reads))) = resizeCalls tr
                   /\ same_settings wt (fst (fst (slaveLoop wt tr reads)))
                   /\ decoder (fst (fst (slaveLoop wt tr reads))) = decoder wt
                   /\ feBuffer (fst (fst (slaveLoop wt tr reads))) = feBuffer wt).
  { revert wt tr. induction reads as [|data reads IH]; intros wt tr.
    - cbn. split; [reflexivity|]. split; [reflexivity|].
      split; [apply same_settings_refl|]. auto.
    - cbn [slaveLoop].
      destruct (auditLogs_settings wt tr data false) as [Hset Hdec].
      destruct (auditLogs_slaveWrites wt tr data false) as [Hsw Hrc].
      pose proof (auditLogs_other_accumulator wt tr data false) as Hfe.
      cbn [negb accumulator] in Hfe.
      destruct (auditLogs wt tr data false) as [wt1 tr1]. cbn [fst snd] in *.
      unfold handleSlaveReadEvent, masterWrite, wrapped.
      destruct (masterConn_Write tr1 _) as [err|].
      + cbn [fst snd]. rewrite slaveWrites_app, resizeCalls_app. cbn.
        rewrite !app_nil_r. repeat split; try assumption; apply Hset.
      + destruct (IH wt1 (tr1 ++ [MasterWrite (Output :: base64.EncodeToString data)]))
          as (Hsw' & Hrc' & Hset' & Hdec' & Hfe').
        rewrite slaveWrites_app, resizeCalls_app in *. cbn in Hsw', Hrc'.
        rewrite app_nil_r in Hsw', Hrc'.
        split; [congruence|]. split; [congruence|].
        split; [|split; congruence].
        unfold same_settings in *.
        destruct Hset as (? & ? & ? & ? & ? & ? & ? & ? & ?).
        destruct Hset' as (? & ? & ? & ? & ? & ? & ? & ? & ?).
        repeat split; congruence. }
  destruct Hframe as (Hsw & Hrc & Hset & Hdec & Hfe).
  repeat (split; [assumption|]).
  destruct (slaveLoop_outcome reads wt tr) as (new & Htr & Hcases).
  exists new. split; [exact Htr|].
  destruct Hcases
    as [(Hnew & Hend & Hmsgs)
       | (done & d & rest & err & before & Hreads & Hnew & Hbefore & Hfail & Hend & Hmsgs)].
  - left. split; [exact Hend|]. split; [exact Hnew|].
    now rewrite Hmsgs, length_map.
  - right. exists done, d, rest, err, before.
    rewrite Hmsgs, length_map. auto 10.
Qed.

(** X13.  For a buffer size that [make] accepts, the chunk size of the
    slave-to-master loop is a multiple of 3 between 0 and the buffer
    size, so the slice [buffer[:maxChunkSize]] is in range.  It is 0 for
    the buffer sizes up to 4, with which the loop reads no byte of the
    slave, and at least 3 from 5 on. *)
Theorem maxChunkSize_within_buffer (wt : WebTTY) :
  0 <= bufferSize wt -> int_range (bufferSize wt) ->
  0 <= maxChunkSize wt <= bufferSize wt
  /\ maxChunkSize wt mod 3 = 0
  /\ (bufferSize wt <= 4 -> maxChunkSize wt = 0)
  /\ (5 <= bufferSize wt -> 3 <= maxChunkSize wt).
Proof.
  intros H0 Hr. destruct (Z.eq_dec (bufferSize wt) 0) as [E | E].
  - unfold maxChunkSize. rewrite E. cbv zeta.
    change (wrap64 (Z.quot (wrap64 (0 - 1)) 4 * 3)) with 0.
    repeat split; try reflexivity; lia.
  - rewrite maxChunkSize_positive_buffer by (auto; lia).
    repeat split; Z.div_mod_to_equations; lia.
Qed.

End Loops.


Lemma set_encoding_then_inputs_reach_slave_witness :
  slaveWrites
    (snd (fst (@masterLoop gotty_types plain_libraries reliable fixed_80x24 []
                 ((SetEncoding :: bytes "base64")
                  :: map (fun data => Input :: base64.Encode data)
                         [bytes "ls"; [CR]]))))
  = [bytes "ls"; [CR]].
Proof.
  apply (@set_encoding_then_inputs_reach_slave gotty_types plain_libraries
           reliable fixed_80x24 [bytes "ls"; [CR]]).
  - reflexivity.
  - intros tr data. reflexivity.
  - repeat constructor; discriminate.
Defined.

Lemma maxChunkSize_within_buffer_witness :
  0 <= maxChunkSize New <= bufferSize New.
Proof.
  apply (maxChunkSize_within_buffer New); vm_compute; intuition discriminate.
Defined.

(** ** What the client reads *)

(** The decimal digits that [json.Marshal] writes for an [int] read
    back as that [int]. *)
Lemma parse_int_Marshal (n : Z) : parse_int (json_Marshal_int n) = Some n.
Proof.
  unfold parse_int, json_Marshal_int, bytes.
  rewrite string_of_list_byte_of_string.
  rewrite DecimalString.NilZero.isi.
  - cbn [option_map]. now rewrite DecimalZ.of_to.
  - destruct n as [|p|p]; cbn; try discriminate.
    intros [= E]. now apply (DecimalPos.Unsigned.to_uint_nonnil p).
  - destruct n as [|p|p]; cbn; try discriminate.
    intros [= E]. now apply (DecimalPos.Unsigned.to_uint_nonnil p).
Qed.

Lemma frontMessages_writesOf (steps : list (list byte * string)) :
  frontMessages (writesOf steps) = map fst steps.
Proof.
  unfold writesOf.
  induction steps as [|[msg name] steps IH]; [reflexivity|].
  cbn. now rewrite IH.
Qed.

Lemma Encode_alphabet (data : list byte) :
  Forall (fun c => In c base64.encodeStd \/ c = base64.padChar)
         (base64.Encode data).
Proof.
  assert (Hs : forall val k, In (base64.sextet val k) base64.encodeStd).
  { intros val k. unfold base64.sextet, base64.encode.
    pose proof (base64_facts.land_63 (Z.shiftr val k)) as Hr.
    apply nth_In. change (length base64.encodeStd) with 64%nat. lia. }
  induction data as [| b0 | b0 b1 | b0 b1 b2 data IH] using base64_facts.list_ind3;
    cbn [base64.Encode]; cbv zeta;
    repeat (apply Forall_cons; [first [left; apply Hs | right; reflexivity]|]);
    [apply Forall_nil | apply Forall_nil | apply Forall_nil | exact IH].
Qed.

Section Client.

Context {MT : MessageTypes} {C : Conns}.

(** X14.  When the handshake goes through, the second message written
    is set-buffer-size, and its payload, read as decimal digits, is the
    configured buffer size; with a positive reconnect interval the
    third is set-reconnect, whose payload reads back as the interval. *)
Theorem handshake_sizes_read_back (wt : WebTTY) :
  snd (Run_handshake wt []) = None ->
  (exists digits,
     nth_error (frontMessages (fst (Run_handshake wt []))) 1
     = Some (SetBufferSize :: digits)
     /\ parse_int digits = Some (bufferSize wt))
  /\ (0 < reconnect wt ->
      exists digits,
        nth_error (frontMessages (fst (Run_handshake wt []))) 2
        = Some (SetReconnect :: digits)
        /\ parse_int digits = Some (reconnect wt)).
Proof.
  unfold Run_handshake, wrapped. rewrite sendInitializeMessage_steps.
  destruct (writeSteps_outcome (handshake_spec wt) [])
    as [[_ ->] | (done & msg & name & rest & err & _ & _ & _ & ->)];
    [|discriminate].
  intros _. cbn [fst app]. rewrite frontMessages_writesOf.
  unfold handshake_spec. split.
  - exists (json_Marshal_int (bufferSize wt)). split; [reflexivity|].
    apply parse_int_Marshal.
  - intros Hpos. apply Z.gtb_lt in Hpos. rewrite Hpos.
    exists (json_Marshal_int (reconnect wt)). split; [reflexivity|].
    apply parse_int_Marshal.
Qed.

(** X15.  The message that [handleSlaveReadEvent] writes is safe for a
    text frame: after the tag, every byte is a character of the base64
    alphabet or the padding character, all of them printable ASCII,
    whatever bytes the slave produced. *)
Theorem slave_output_is_text (tr : list Event) (data : list byte) :
  exists payload,
    fst (handleSlaveReadEvent tr data) = tr ++ [MasterWrite (Output :: payload)]
    /\ Forall (fun c => (In c base64.encodeStd \/ c = base64.padChar)
                        /\ printable c = true) payload.
Proof.
  exists (base64.Encode data). split; [apply handleSlaveReadEvent_trace|].
  assert (Hp : forallb printable (base64.padChar :: base64.encodeStd) = true)
    by (vm_compute; reflexivity).
  rewrite forallb_forall in Hp.
  eapply Forall_impl; [|apply Encode_alphabet].
  intros c Hc. split; [exact Hc|].
  apply Hp. destruct Hc as [Hc | ->]; [now right | now left].
Qed.

End Client.

Lemma handshake_sizes_read_back_witness :
  exists digits,
    nth_error (frontMessages (fst (@Run_handshake gotty_types reliable audited []))) 2
    = Some (SetReconnect :: digits)
    /\ parse_int digits = Some (reconnect audited).
Proof.
  apply (@handshake_sizes_read_back gotty_types reliable audited);
    [reflexivity | reflexivity].
Defined.

(** ** The middleware of the server *)

Module server_facts.
Import server.

(** X16.  Behind [wrapBasicAuth] the handler is run for the requests
    whose user and password, joined by a colon, are the credential,
    after the address of the client is logged, and for no other
    request.  A request without credentials is answered with the
    header WWW-Authenticate, which names the realm GoTTY, and then the
    error "Bad Request" with status 401; a request with other
    credentials with the error "authorization failed" and status 401,
    and no header.  Neither answer depends on the handler. *)
Theorem wrapBasicAuth_serves_credential_only
        (handler : Handler) (credential : string) (r : Request)
        (w : list Effect) :
  let authorized :=
    exists u p, BasicAuth r = Some (u, p)
                /\ credential = String.append u (String.append ":" p) in
  (authorized ->
   wrapBasicAuth handler credential r w
   = handler r (w ++ [LogPrintf (String.append "Basic Authentication Succeeded: "
                                   (RemoteAddr r))]))
  /\ (BasicAuth r = None ->
      wrapBasicAuth handler credential r w
      = w ++ [HeaderSet "WWW-Authenticate"
                (String.append "Basic realm="
                   (String.append quote (String.append "GoTTY" quote)));
              Error "Bad Request" 401])
  /\ (forall u p,
        BasicAuth r = Some (u, p) ->
        credential <> String.append u (String.append ":" p) ->
        wrapBasicAuth handler credential r w
        = w ++ [Error "authorization failed" 401])
  /\ (~ authorized ->
      forall handler',
        wrapBasicAuth handler credential r w
        = wrapBasicAuth handler' credential r w).
Proof.
  cbv zeta. unfold wrapBasicAuth. repeat split.
  - intros (u & p & -> & ->). now rewrite String.eqb_refl.
  - intros ->. reflexivity.
  - intros u p -> Hne. apply String.eqb_neq in Hne. now rewrite Hne.
  - intros Hno handler'. destruct (BasicAuth r) as [[u p]|]; [|reflexivity].
    destruct (String.eqb_spec credential (String.append u (String.append ":" p)))
      as [E | E]; [exfalso; apply Hno; eauto | reflexivity].
Qed.

End server_facts.

Lemma wrapBasicAuth_serves_credential_only_witness :
  server.wrapBasicAuth (server.wrapHeaders server.index) "admin:a:b"
    {| server.RemoteAddr := "10.0.0.1:4000";
       server.BasicAuth := Some ("admin"%string, "a:c"%string) |} []
  = server.wrapBasicAuth server.index "admin:a:b"
      {| server.RemoteAddr := "10.0.0.1:4000";
         server.BasicAuth := Some ("admin"%string, "a:c"%string) |} [].
Proof.
  apply (server_facts.wrapBasicAuth_serves_credential_only
           (server.wrapHeaders server.index) "admin:a:b"
           {| server.RemoteAddr := "10.0.0.1:4000";
              server.BasicAuth := Some ("admin"%string, "a:c"%string) |} []).
  intros (u & p & [= <- <-] & E). discriminate E.
Defined.
